(** * Dashboard client (static/js/main.js): a shallow embedding

    The viewer-side script of the stack manager keeps, in the browser page,
    the live queue charts, the metric read-outs, the status badges, the
    command terminal, the lock-gated configuration editor and the list of
    discovered connector cards.  Each part of the page the script reads or
    writes is represented by an explicit state record; every handler of the
    script is a function on that state.

    Conventions used for the JavaScript side:
    - strings are [string] (the model covers the ASCII range);
    - numbers are an abstract type with the formatting built-ins the script
      calls ([toFixed(1)], [toLocaleString()], the implicit [ToString]);
    - a value parsed from JSON that the script only compares or prints is a
      [jsval];
    - the clock read by [new Date()] is an argument of the function that
      reads it. *)

From Stdlib Require Import ZArith Lia Ascii String.
From stdpp Require Import base strings list gmap pretty.

Open Scope string_scope.
Open Scope list_scope.

(** ** JavaScript values and string built-ins *)

Module Js.

(** The JSON values the script handles without looking inside:
    an absent property, [null], or a string. *)
Inductive jsval :=
| JUndefined
| JNull
| JStr (s : string).

#[global] Instance jsval_eq_dec : EqDecision jsval.
Proof. solve_decision. Defined.

(** [`${v}`]: what a template literal prints for [v]. *)
Definition template (v : jsval) : string :=
  match v with
  | JUndefined => "undefined"
  | JNull => "null"
  | JStr s => s
  end.

(** [v || dflt] when printed: [undefined], [null] and the empty string are
    falsy. *)
Definition or_default (v : jsval) (dflt : string) : string :=
  match v with
  | JStr s => if decide (s = "") then dflt else s
  | _ => dflt
  end.

(** [v === 'lit'] *)
Definition strict_eq_str (v : jsval) (lit : string) : bool :=
  bool_decide (v = JStr lit).

(** [s.padStart(n, '0')] *)
Definition padStart0 (n : nat) (s : string) : string :=
  String.concat "" (replicate (n - String.length s) "0") +:+ s.

Definition is_upper (c : ascii) : bool :=
  let k := nat_of_ascii c in (65 <=? k)%nat && (k <=? 90)%nat.

Definition is_lower (c : ascii) : bool :=
  let k := nat_of_ascii c in (97 <=? k)%nat && (k <=? 122)%nat.

Definition is_digit (c : ascii) : bool :=
  let k := nat_of_ascii c in (48 <=? k)%nat && (k <=? 57)%nat.

Definition lower_char (c : ascii) : ascii :=
  if is_upper c then ascii_of_nat (nat_of_ascii c + 32) else c.

Fixpoint map_string (f : ascii -> ascii) (s : string) : string :=
  match s with
  | EmptyString => EmptyString
  | String c s' => String (f c) (map_string f s')
  end.

(** [s.toLowerCase()] *)
Definition toLowerCase (s : string) : string := map_string lower_char s.

(** [s.replace(/[^a-zA-Z0-9]/g, '_')] *)
Definition replace_non_alnum (s : string) : string :=
  map_string
    (fun c => if is_upper c || is_lower c || is_digit c then c else "_"%char) s.

(** The double-quote character, for the markup the script writes. *)
Definition dq : string := String (ascii_of_nat 34) EmptyString.

(** The part of a [Date] the script reads. *)
Record Date := { getHours : nat; getMinutes : nat; getSeconds : nat }.

(** Numbers with the built-ins the script applies to them. *)
Class Number (num : Type) := {
  add : num -> num -> num;
  div : num -> num -> num;
  of_nat : nat -> num;
  toString : num -> string;
  toFixed1 : num -> string;
  toLocaleString : num -> string
}.

End Js.

(** ** Live queue charts *)

Module Charts.
Import Js.

Section WithNumbers.
Context {num : Type}.

(** [chart.data]: the labels and the datasets.  Every chart of the page
    is built by [createMqChart] or [createHistChart], which give it a
    first dataset; [datasets_tail] holds [datasets[1..]]. *)
Record Chart := {
  labels : list string;
  dataset0 : list num;
  datasets_tail : list (list num)
}.

(** [createMqChart(id, color1, color2 = null)], colours left out: the
    second dataset exists when [color2] is given. *)
Definition createMqChart (color2 : bool) : Chart :=
  {| labels := []; dataset0 := [];
     datasets_tail := if color2 then [[]] else [] |}.

Definition timeLabel (now : Date) : string :=
  padStart0 2 (pretty (getHours now)) +:+ ":" +:+
  padStart0 2 (pretty (getMinutes now)) +:+ ":" +:+
  padStart0 2 (pretty (getSeconds now)).

(** [array.shift()] as a statement. *)
Definition shift {A} (l : list A) : list A := tail l.

(** [datasets[1].data.push(val2)] *)
Definition push_second (v : num) (ds : list (list num)) : list (list num) :=
  match ds with
  | [] => []
  | d :: rest => (d ++ [v]) :: rest
  end.

Definition updateChart (now : Date) (chart : Chart) (val1 : num) (val2 : option num)
  : Chart :=
  let chart1 :=
    if decide (20 < length (labels chart)) then
      {| labels := shift (labels chart);
         dataset0 := shift (dataset0 chart);
         datasets_tail := shift <$> datasets_tail chart |}
    else chart in
  {| labels := labels chart1 ++ [timeLabel now];
     dataset0 := dataset0 chart1 ++ [val1];
     datasets_tail :=
       match val2 with
       | Some v => push_second v (datasets_tail chart1)
       | None => datasets_tail chart1
       end |}.

(** [c'] holds one more point than [c], stamped [now]: the new label and
    the new value come last, after the points of [c] or after all of them
    but the oldest. *)
Definition gains_point (now : Date) (v : num) (c c' : Chart) : Prop :=
  exists k, k <= 1 /\
    labels c' = drop k (labels c) ++ [timeLabel now] /\
    dataset0 c' = drop k (dataset0 c) ++ [v].

(** One live sample: the clock reading and the two values. *)
Definition sample : Type := Date * num * option num.

Definition updates (chart : Chart) (calls : list sample) : Chart :=
  foldl (fun c '(now, v1, v2) => updateChart now c v1 v2) chart calls.

End WithNumbers.
Arguments Chart : clear implicits.

End Charts.

(** ** Averages of the history charts *)

Module History.
Import Js.

Section WithNumbers.
Context {num : Type} `{!Number num}.

(** [calculateAverage] returns the number [0] on one path and the string
    made by [toFixed] on the other. *)
Inductive average :=
| AvgNumber (n : num)
| AvgString (s : string).

(** [data.reduce((a, b) => a + b, 0)] *)
Definition sum (data : list num) : num := foldl add (of_nat 0) data.

(** The argument is [None] for [null] or [undefined]. *)
Definition calculateAverage (data : option (list num)) : average :=
  match data with
  | None => AvgNumber (of_nat 0)
  | Some xs =>
      if decide (length xs = 0) then AvgNumber (of_nat 0)
      else AvgString (toFixed1 (div (sum xs) (of_nat (length xs))))
  end.

End WithNumbers.
Arguments average : clear implicits.

End History.

(** ** The metrics panel and the [system_stats] message *)

Module Stats.
Import Js Charts.

Section WithNumbers.
Context {num : Type} `{!Number num}.

(** The [rabbitmq] block of a snapshot. *)
Record RabbitMq := {
  status : jsval;
  messages_ready : num;
  messages_total : num;
  publish_rate : num;
  deliver_rate : num;
  error : jsval
}.

(** The [system_stats] payload; [rabbitmq] is [None] when the block is
    absent. *)
Record SystemStats := {
  cpu : num;
  ram : num;
  ram_used : num;
  ram_total : num;
  disk : num;
  disk_used : num;
  disk_total : num;
  net_in : num;
  net_out : num;
  rabbitmq : option RabbitMq
}.

(** The elements of the page the handler writes, by element id, and the
    three queue charts. *)
Record Panel := {
  cpu_val : string;
  cpu_bar_width : string;
  ram_val : string;
  ram_bar_width : string;
  disk_val : string;
  disk_bar_width : string;
  net_in_text : string;
  net_out_text : string;
  mq_status_className : string;
  mq_status_innerText : string;
  mq_queued : string;
  mq_total : string;
  mq_rate_in : string;
  mq_rate_out : string;
  chartQueued : Chart num;
  chartTotal : Chart num;
  chartRate : Chart num
}.

Definition usageText (pct used total : num) : string :=
  toString pct +:+ "% <small class=" +:+ dq +:+ "text-muted ms-1" +:+ dq +:+ ">(" +:+
  toFixed1 used +:+ "GB / " +:+ toFixed1 total +:+ "GB)</small>".

(** The RabbitMQ part of the handler; [t1], [t2], [t3] are the clock
    readings of the three [updateChart] calls. *)
Definition update_rabbitmq (t1 t2 t3 : Date) (mq : RabbitMq) (p : Panel) : Panel :=
  if strict_eq_str (status mq) "online" then
    {| cpu_val := cpu_val p; cpu_bar_width := cpu_bar_width p;
       ram_val := ram_val p; ram_bar_width := ram_bar_width p;
       disk_val := disk_val p; disk_bar_width := disk_bar_width p;
       net_in_text := net_in_text p; net_out_text := net_out_text p;
       mq_status_className := "badge bg-success";
       mq_status_innerText := "Online";
       mq_queued := toLocaleString (messages_ready mq);
       mq_total := toLocaleString (messages_total mq);
       mq_rate_in := toFixed1 (publish_rate mq);
       mq_rate_out := toFixed1 (deliver_rate mq);
       chartQueued := updateChart t1 (chartQueued p) (messages_ready mq) None;
       chartTotal := updateChart t2 (chartTotal p) (messages_total mq) None;
       chartRate :=
         updateChart t3 (chartRate p) (publish_rate mq) (Some (deliver_rate mq)) |}
  else
    {| cpu_val := cpu_val p; cpu_bar_width := cpu_bar_width p;
       ram_val := ram_val p; ram_bar_width := ram_bar_width p;
       disk_val := disk_val p; disk_bar_width := disk_bar_width p;
       net_in_text := net_in_text p; net_out_text := net_out_text p;
       mq_status_className := "badge bg-danger";
       mq_status_innerText := "Offline (" +:+ or_default (error mq) "Err" +:+ ")";
       mq_queued := mq_queued p; mq_total := mq_total p;
       mq_rate_in := mq_rate_in p; mq_rate_out := mq_rate_out p;
       chartQueued := chartQueued p; chartTotal := chartTotal p;
       chartRate := chartRate p |}.

(** [socket.on('system_stats', ...)] *)
Definition on_system_stats (t1 t2 t3 : Date) (data : SystemStats) (p : Panel) : Panel :=
  let p1 :=
    {| cpu_val := toString (cpu data) +:+ "%";
       cpu_bar_width := toString (cpu data) +:+ "%";
       ram_val := usageText (ram data) (ram_used data) (ram_total data);
       ram_bar_width := toString (ram data) +:+ "%";
       disk_val := usageText (disk data) (disk_used data) (disk_total data);
       disk_bar_width := toString (disk data) +:+ "%";
       net_in_text := toFixed1 (net_in data);
       net_out_text := toFixed1 (net_out data);
       mq_status_className := mq_status_className p;
       mq_status_innerText := mq_status_innerText p;
       mq_queued := mq_queued p; mq_total := mq_total p;
       mq_rate_in := mq_rate_in p; mq_rate_out := mq_rate_out p;
       chartQueued := chartQueued p; chartTotal := chartTotal p;
       chartRate := chartRate p |} in
  match rabbitmq data with
  | Some mq => update_rabbitmq t1 t2 t3 mq p1
  | None => p1
  end.

End WithNumbers.
Arguments RabbitMq : clear implicits.
Arguments SystemStats : clear implicits.
Arguments Panel : clear implicits.

End Stats.

(** ** Status badges and the [status_update] message *)

Module Badges.
Import Js.

(** What the script sets on a badge element. *)
Record Badge := { className : string; innerText : string }.

Definition runningBadge : Badge :=
  {| className := "badge bg-success ms-2"; innerText := "Running" |}.

Definition stoppedBadge : Badge :=
  {| className := "badge bg-danger ms-2"; innerText := "Stopped" |}.

(** The badge the handler writes for a status value. *)
Definition shownFor (status : jsval) : Badge :=
  if strict_eq_str status "running" then runningBadge else stoppedBadge.

(** [`status-${key}`] *)
Definition badgeId (key : string) : string := "status-" +:+ key.

(** The badge elements of the document by element id:
    [document.getElementById(id)] is the lookup of [id]. *)
Definition setBadge (doc : gmap string Badge) (entry : string * jsval) : gmap string Badge :=
  let '(key, status) := entry in
  match doc !! badgeId key with
  | Some _ =>
      if strict_eq_str status "running" then <[badgeId key := runningBadge]> doc
      else <[badgeId key := stoppedBadge]> doc
  | None => doc
  end.

(** [socket.on('status_update', ...)]: the loop over
    [Object.entries(data)]. *)
Definition on_status_update (entries : list (string * jsval)) (doc : gmap string Badge)
  : gmap string Badge :=
  foldl setBadge doc entries.

End Badges.

(** ** The command terminal *)

Module Terminal.

(** A child [div] of the terminal element.  The scroll position the
    script also sets is not represented. *)
Record Line := { line_className : string; textContent : string }.

Definition logToTerminal (text : string) (terminal : list Line) : list Line :=
  terminal ++ [{| line_className := ""; textContent := text |}].

Definition clearTerminal (terminal : list Line) : list Line :=
  [{| line_className := "text-muted"; textContent := "// Console cleared" |}].

(** [socket.on('command_output', ...)]; [line] is [data.line]. *)
Definition on_command_output (line : string) (terminal : list Line) : list Line :=
  logToTerminal line terminal.

(** What [socket.on('connect', ...)] and [socket.on('disconnect', ...)]
    write to the terminal; the connection badge they also set is not
    represented. *)
Definition on_connect (terminal : list Line) : list Line :=
  logToTerminal "System: Client connected to server." terminal.

Definition on_disconnect (terminal : list Line) : list Line :=
  logToTerminal "System: Connection lost." terminal.

(** The [div] that [logToTerminal] creates for [text]. *)
Definition lineOf (text : string) : Line :=
  {| line_className := ""; textContent := text |}.

(** A run of [command_output] events, in delivery order. *)
Definition deliver (lines : list string) (terminal : list Line) : list Line :=
  foldl (fun t line => on_command_output line t) terminal lines.

End Terminal.

(** ** The lock-gated configuration editor *)

Module Editor.
Import Js Badges.

(** The [editor-modal] text area. *)
Record Textarea := { value : string; readOnly : bool; borderColor : string }.

(** The [editor-msg-modal] element. *)
Record Message := { msg_innerText : string; msg_className : string }.

(** The password modal with its input and its error line. *)
Record PasswordDialog := {
  passwordModal_shown : bool;
  unlock_password : string;
  password_error : string
}.

(** The editor's share of the page.  [btn_lock_hidden] and
    [btn_save_hidden] say whether the button's class list holds [d-none];
    [alerts] lists the [alert()] calls made so far, newest last; [badges]
    are the status badges that [unlockConfig] looks up by id. *)
Record State := {
  currentEditingName : jsval;
  currentEditingUid : jsval;
  editor : Textarea;
  msg : Message;
  btn_lock_hidden : bool;
  btn_save_hidden : bool;
  configModalLabel : string;
  configModal_shown : bool;
  password : PasswordDialog;
  alerts : list string;
  badges : gmap string Badge
}.

Definition with_editor (e : Textarea) (s : State) : State :=
  {| currentEditingName := currentEditingName s;
     currentEditingUid := currentEditingUid s;
     editor := e; msg := msg s;
     btn_lock_hidden := btn_lock_hidden s; btn_save_hidden := btn_save_hidden s;
     configModalLabel := configModalLabel s; configModal_shown := configModal_shown s;
     password := password s; alerts := alerts s; badges := badges s |}.

Definition with_msg (m : Message) (s : State) : State :=
  {| currentEditingName := currentEditingName s;
     currentEditingUid := currentEditingUid s;
     editor := editor s; msg := m;
     btn_lock_hidden := btn_lock_hidden s; btn_save_hidden := btn_save_hidden s;
     configModalLabel := configModalLabel s; configModal_shown := configModal_shown s;
     password := password s; alerts := alerts s; badges := badges s |}.

Definition with_buttons (lock_hidden save_hidden : bool) (s : State) : State :=
  {| currentEditingName := currentEditingName s;
     currentEditingUid := currentEditingUid s;
     editor := editor s; msg := msg s;
     btn_lock_hidden := lock_hidden; btn_save_hidden := save_hidden;
     configModalLabel := configModalLabel s; configModal_shown := configModal_shown s;
     password := password s; alerts := alerts s; badges := badges s |}.

Definition with_password (d : PasswordDialog) (s : State) : State :=
  {| currentEditingName := currentEditingName s;
     currentEditingUid := currentEditingUid s;
     editor := editor s; msg := msg s;
     btn_lock_hidden := btn_lock_hidden s; btn_save_hidden := btn_save_hidden s;
     configModalLabel := configModalLabel s; configModal_shown := configModal_shown s;
     password := d; alerts := alerts s; badges := badges s |}.

Definition alert (text : string) (s : State) : State :=
  {| currentEditingName := currentEditingName s;
     currentEditingUid := currentEditingUid s;
     editor := editor s; msg := msg s;
     btn_lock_hidden := btn_lock_hidden s; btn_save_hidden := btn_save_hidden s;
     configModalLabel := configModalLabel s; configModal_shown := configModal_shown s;
     password := password s; alerts := alerts s ++ [text]; badges := badges s |}.

(** [openEditor(name, uid)] up to the [fetch]: the session starts locked. *)
Definition openEditor (name uid : string) (s : State) : State :=
  {| currentEditingName := JStr name;
     currentEditingUid := JStr uid;
     editor := {| value := "Loading..."; readOnly := true; borderColor := "" |};
     msg := {| msg_innerText := ""; msg_className := msg_className (msg s) |};
     btn_lock_hidden := false; btn_save_hidden := true;
     configModalLabel := "Config Editor: " +:+ name;
     configModal_shown := true;
     password := password s; alerts := alerts s; badges := badges s |}.

(** A settled [fetch(...).then(r => r.json())]: the parsed reply, or a
    rejection (network failure, a body that is not JSON, or a reply whose
    properties cannot be read). *)
Inductive Fetched (A : Type) :=
| Replied (data : A)
| Rejected.
Arguments Replied {A} data.
Arguments Rejected {A}.

Record ConfigReply := { content : jsval; load_error : jsval }.

(** The two callbacks of the [fetch] in [openEditor]. *)
Definition openEditor_settled (r : Fetched ConfigReply) (s : State) : State :=
  let text :=
    match r with
    | Replied data =>
        match content data with
        | JStr c =>
            if decide (c = "") then
              "// Error loading file: " +:+ or_default (load_error data) "Unknown"
            else c
        | _ => "// Error loading file: " +:+ or_default (load_error data) "Unknown"
        end
    | Rejected => "// Network Error"
    end in
  with_editor {| value := text; readOnly := readOnly (editor s);
                 borderColor := borderColor (editor s) |} s.

(** [`status-connector_${currentEditingName}`] *)
Definition connectorBadgeId (s : State) : string :=
  "status-connector_" +:+ template (currentEditingName s).

Definition stopFirst : string :=
  "You must STOP the connector before editing the configuration.".

Definition unlockConfig (s : State) : State :=
  let blocked :=
    match badges s !! connectorBadgeId s with
    | Some statusBadge => bool_decide (toLowerCase (innerText statusBadge) = "running")
    | None => false
    end in
  if blocked then alert stopFirst s
  else
    with_password {| passwordModal_shown := true; unlock_password := "";
                     password_error := "" |} s.

(** The badge of the connector being edited reads [running], whatever
    the letter case. *)
Definition readsRunning (s : State) : Prop :=
  exists b, badges s !! connectorBadgeId s = Some b /\
            toLowerCase (innerText b) = "running".

(** The state [unlockConfig] leaves when it opens the prompt. *)
Definition prompted (s : State) : State :=
  with_password {| passwordModal_shown := true; unlock_password := "";
                   password_error := "" |} s.

(** The single shared credential the script compares with. *)
Definition sharedPassword : string := "P@ssw0rd".

Definition checkPassword (s : State) : State :=
  let pwd := unlock_password (password s) in
  if decide (pwd = sharedPassword) then
    with_buttons true false
      (with_editor {| value := value (editor s); readOnly := false;
                      borderColor := "#ffc107" |}
         (with_password {| passwordModal_shown := false; unlock_password := pwd;
                           password_error := password_error (password s) |} s))
  else
    with_password {| passwordModal_shown := passwordModal_shown (password s);
                     unlock_password := pwd;
                     password_error := "Incorrect password." |} s.

(** The [POST] that [saveConfig] sends. *)
Record SaveRequest := { url : string; body_content : string }.

(** [saveConfig()] up to the [fetch]. *)
Definition saveConfig (s : State) : State * SaveRequest :=
  (with_msg {| msg_innerText := "Saving..."; msg_className := "text-warning small ms-2" |} s,
   {| url := "/api/connector/" +:+ template (currentEditingName s) +:+ "/config";
      body_content := value (editor s) |}).

(** The reply to the [POST]. *)
Record SaveReply := { save_status : jsval; backup : jsval; save_error : jsval }.

(** The callbacks of the [fetch] in [saveConfig], run on the page as it is
    when the reply arrives. *)
Definition saveConfig_settled (r : Fetched SaveReply) (s : State) : State :=
  match r with
  | Replied data =>
      if strict_eq_str (save_status data) "success" then
        with_buttons false true
          (with_editor {| value := value (editor s); readOnly := true; borderColor := "" |}
             (with_msg {| msg_innerText := "Saved! Backup: " +:+ template (backup data);
                          msg_className := "text-success small ms-2" |} s))
      else
        with_msg {| msg_innerText := or_default (save_error data) "Save failed";
                    msg_className := "text-danger small ms-2" |} s
  | Rejected =>
      with_msg {| msg_innerText := "Network error during save";
                  msg_className := "text-danger small ms-2" |} s
  end.

End Editor.

(** ** Connector discovery: the cards of [connectors-list] *)

Module Connectors.
Import Js.

(** An entry of a [known_connectors] list. *)
Record Item := { name : string; has_config : bool }.

(** A [.connector-card-col] element, by the attributes the handler reads
    back; [edit_uid] is the uid passed to [openEditor] by the Edit button of
    a valid card.  Names are taken as they are: markup metacharacters in a
    name are outside the model. *)
Record Card := { data_name : string; data_valid : string; edit_uid : option string }.

(** A child element of the container: a connector card, or any other
    element, kept with its [id] attribute and its text. *)
Inductive Node :=
| CardCol (c : Card)
| Plain (id : string) (text : string).

(** An element of the page: [nid] is the identity of the DOM node. *)
Record Element := { nid : nat; node : Node }.

#[global] Instance Item_eq_dec : EqDecision Item.
Proof. solve_decision. Defined.
#[global] Instance Card_eq_dec : EqDecision Card.
Proof. solve_decision. Defined.
#[global] Instance Node_eq_dec : EqDecision Node.
Proof. solve_decision. Defined.
#[global] Instance Element_eq_dec : EqDecision Element.
Proof. solve_decision. Defined.

(** The refresh button with its icon. *)
Record RefreshButton := {
  disabled : bool;
  icon_animation : string;
  icon_classList : list string
}.

(** The discovery part of the page: the refresh button when there is one,
    the children of [connectors-list] in document order, and the identity
    the next created node gets. *)
Record Page := {
  btn_refresh : option RefreshButton;
  children : list Element;
  next_nid : nat
}.

Definition classList_remove (c : string) (l : list string) : list string :=
  filter (fun x => x <> c) l.

Definition classList_add (c : string) (l : list string) : list string :=
  if decide (c ∈ l) then l else l ++ [c].

Definition createConnectorHtml (name : string) (hasConfig : bool) (uid : string) : Card :=
  if negb hasConfig then
    {| data_name := name; data_valid := "false"; edit_uid := None |}
  else
    {| data_name := name; data_valid := "true"; edit_uid := Some uid |}.

Definition card_of (e : Element) : option Card :=
  match node e with
  | CardCol c => Some c
  | Plain _ _ => None
  end.

(** [card.getAttribute('data-name')] for the cards among [l]. *)
Definition card_names (l : list Element) : list string :=
  omap (fun e => data_name <$> card_of e) l.

(** [container.querySelectorAll('.connector-card-col')] *)
Definition querySelectorAll (l : list Element) : list Element :=
  filter (fun e => is_Some (card_of e)) l.

Definition named (n : string) (e : Element) : bool :=
  match card_of e with
  | Some c => bool_decide (data_name c = n)
  | None => false
  end.

(** [container.querySelector(`.connector-card-col[data-name="${n}"]`)] *)
Definition querySelector (n : string) (l : list Element) : option Element :=
  find (named n) l.

Definition is_loading (e : Element) : bool :=
  match node e with
  | Plain id _ => bool_decide (id = "connectors-loading")
  | CardCol _ => false
  end.

(** [node.remove()] *)
Definition remove_node (k : nat) (l : list Element) : list Element :=
  filter (fun e => nid e <> k) l.

(** [node.outerHTML = html] *)
Definition replace_node (k : nat) (new : Element) (l : list Element) : list Element :=
  (fun e => if decide (nid e = k) then new else e) <$> l.

Definition stop_spinner (b : RefreshButton) : RefreshButton :=
  {| disabled := false;
     icon_animation := "";
     icon_classList :=
       classList_add "bi-arrow-clockwise" (classList_remove "bi-arrow-repeat" (icon_classList b)) |}.

(** [if (loading) loading.remove()] for a placeholder inside the container. *)
Definition remove_loading (l : list Element) : list Element :=
  match find is_loading l with
  | Some loading => remove_node (nid loading) l
  | None => l
  end.

(** [container.insertAdjacentHTML('beforeend', html)] *)
Definition insert_beforeend (c : Card) (p : Page) : Page :=
  {| btn_refresh := btn_refresh p;
     children := children p ++ [{| nid := next_nid p; node := CardCol c |}];
     next_nid := S (next_nid p) |}.

(** [existingCard.outerHTML = html] *)
Definition set_outerHTML (existingCard : Element) (c : Card) (p : Page) : Page :=
  {| btn_refresh := btn_refresh p;
     children :=
       replace_node (nid existingCard) {| nid := next_nid p; node := CardCol c |} (children p);
     next_nid := S (next_nid p) |}.

Definition wasValid (e : Element) : bool :=
  bool_decide (data_valid <$> card_of e = Some "true").

(** The body of the loop of step 2; [None] is the [TypeError] raised when
    [querySelector] finds no card. *)
Definition add_or_update (existingNames : gset string) (p : Page) (item : Item)
  : option Page :=
  let uid := replace_non_alnum (name item) in
  let html := createConnectorHtml (name item) (has_config item) uid in
  if decide (name item ∉ existingNames) then Some (insert_beforeend html p)
  else
    match querySelector (name item) (children p) with
    | Some existingCard =>
        if decide (wasValid existingCard <> has_config item)
        then Some (set_outerHTML existingCard html p)
        else Some p
    | None => None
    end.

(** [list.forEach(...)] of step 2. *)
Fixpoint add_new_cards (existingNames : gset string) (list : list Item) (p : Page)
  : option Page :=
  match list with
  | [] => Some p
  | item :: rest =>
      match add_or_update existingNames p item with
      | Some p' => add_new_cards existingNames rest p'
      | None => None
      end
  end.

(** The body of the loop of step 3, on a card of the node list taken in
    step 1. *)
Definition remove_if_deleted (newNames : gset string) (l : list Element) (card : Element)
  : list Element :=
  match card_of card with
  | Some c => if decide (data_name c ∉ newNames) then remove_node (nid card) l else l
  | None => l
  end.

Definition remove_deleted_cards (newNames : gset string) (cards : list Element)
  (l : list Element) : list Element :=
  foldl (remove_if_deleted newNames) l cards.

Definition emptyState : Node := Plain "" "No connectors found.".

(** [socket.on('known_connectors', ...)] *)
Definition on_known_connectors (list : list Item) (p : Page) : option Page :=
  let p0 :=
    {| btn_refresh := stop_spinner <$> btn_refresh p;
       children := remove_loading (children p);
       next_nid := next_nid p |} in
  let cards := querySelectorAll (children p0) in
  let existingNames : gset string := list_to_set (card_names cards) in
  match add_new_cards existingNames list p0 with
  | None => None
  | Some p1 =>
      let newNames : gset string := list_to_set (name <$> list) in
      let l2 := remove_deleted_cards newNames cards (children p1) in
      if decide (length list = 0 /\ length l2 = 0) then
        Some {| btn_refresh := btn_refresh p1;
                children := [{| nid := next_nid p1; node := emptyState |}];
                next_nid := S (next_nid p1) |}
      else
        Some {| btn_refresh := btn_refresh p1; children := l2; next_nid := next_nid p1 |}
  end.

(** The node that the markup made for [item] parses to. *)
Definition rendered (item : Item) : Node :=
  CardCol (createConnectorHtml (name item) (has_config item) (replace_non_alnum (name item))).

(** [e] is not a card, or a card whose name is in [names]. *)
Definition keep (names : gset string) (e : Element) : Prop :=
  match card_of e with
  | Some c => data_name c ∈ names
  | None => True
  end.

#[global] Instance keep_dec names e : Decision (keep names e).
Proof. unfold keep. destruct (card_of e); apply _. Defined.

(** Entries of the same name carry the same [has_config]. *)
Definition consistent (list : list Item) : Prop :=
  forall i j, i ∈ list -> j ∈ list -> name i = name j -> has_config i = has_config j.

(** Node identities are distinct and older than [next_nid]. *)
Definition well_formed (p : Page) : Prop :=
  NoDup (nid <$> children p) /\ Forall (fun e => nid e < next_nid p) (children p).

(** The element created for [item] when the next identity is [k]. *)
Definition created (k : nat) (item : Item) : Element :=
  {| nid := k; node := rendered item |}.

(** The three outcomes of one round of step 2 on a page whose children
    are [before ++ existingCard :: after], [existingCard] being the first
    card of that name: a card appended, the existing card replaced in
    place, or nothing. *)
Inductive step (existingNames : gset string) (item : Item) (p : Page) : Page -> Prop :=
| step_insert :
    name item ∉ existingNames ->
    step existingNames item p
      {| btn_refresh := btn_refresh p;
         children := children p ++ [created (next_nid p) item];
         next_nid := S (next_nid p) |}
| step_replace before existingCard after :
    name item ∈ existingNames ->
    children p = before ++ existingCard :: after ->
    named (name item) existingCard = true ->
    find (named (name item)) before = None ->
    wasValid existingCard <> has_config item ->
    step existingNames item p
      {| btn_refresh := btn_refresh p;
         children := before ++ created (next_nid p) item :: after;
         next_nid := S (next_nid p) |}
| step_keep before existingCard after :
    name item ∈ existingNames ->
    children p = before ++ existingCard :: after ->
    named (name item) existingCard = true ->
    find (named (name item)) before = None ->
    wasValid existingCard = has_config item ->
    step existingNames item p p.

(** What step 2 does to a page over a run of items: identities stay
    well formed, the names of the cards are those of before followed by the
    new names, every child is an old one or was created for an item, an old
    child goes only by replacement, and an item with a new name has its
    card. *)
Record grows (existingNames : gset string) (items : list Item) (p p' : Page) : Prop := {
  grows_wf : well_formed p';
  grows_next : next_nid p <= next_nid p';
  grows_btn : btn_refresh p' = btn_refresh p;
  grows_names :
    card_names (children p') =
    card_names (children p) ++ filter (fun n => n ∉ existingNames) (name <$> items);
  grows_new : forall e, e ∈ children p' ->
    e ∈ children p \/
    (next_nid p <= nid e /\ exists it, it ∈ items /\ node e = rendered it);
  grows_old : forall e, e ∈ children p ->
    e ∈ children p' \/
    (exists it, it ∈ items /\ name it ∈ existingNames /\
                named (name it) e = true /\ wasValid e <> has_config it);
  grows_added : forall it, it ∈ items -> name it ∉ existingNames ->
    exists e, e ∈ children p' /\ next_nid p <= nid e /\ node e = rendered it
}.

(** What one run of the handler on [items] guarantees, from a well-formed
    page [p] to the page [p'] it leaves. *)
Record reconciled (items : list Item) (p p' : Page) : Prop := {
  rec_wf : well_formed p';
  rec_next : next_nid p <= next_nid p';
  rec_names :
    card_names (children p') =
    filter (fun n => n ∈ (list_to_set (name <$> items) : gset string))
           (card_names (children p)) ++
    filter (fun n => n ∉ (list_to_set (card_names (children p)) : gset string))
           (name <$> items);
  rec_new : forall e, e ∈ children p' -> is_Some (card_of e) ->
    e ∈ children p \/
    (next_nid p <= nid e /\ exists it, it ∈ items /\ node e = rendered it);
  rec_old : forall e, e ∈ children p -> is_Some (card_of e) ->
    e ∈ children p' \/
    ~ keep (list_to_set (name <$> items)) e \/
    (exists it, it ∈ items /\ named (name it) e = true /\ wasValid e <> has_config it);
  rec_added : forall it, it ∈ items -> name it ∉ card_names (children p) ->
    exists e, e ∈ children p' /\ next_nid p <= nid e /\ node e = rendered it;
  rec_kept : forall e, e ∈ children p' -> keep (list_to_set (name <$> items)) e;
  rec_valid : forall n (v : bool),
    (forall it, it ∈ items -> name it = n -> has_config it = v) ->
    n ∈ name <$> items ->
    exists c, querySelector n (children p') = Some c /\ wasValid c = v
}.

#[global] Instance well_formed_dec p : Decision (well_formed p).
Proof. unfold well_formed. apply _. Defined.

(** A container without children. *)
Definition emptyPage : Page := {| btn_refresh := None; children := []; next_nid := 0 |}.

End Connectors.

(** ** Concrete inputs used by the examples below *)

Module Samples.
Import Js.

(** Whole numbers as a stand-in for JavaScript numbers, for examples in
    which only the formatting matters. *)
#[global] Instance whole_numbers : Number Z := {|
  add := Z.add;
  div := Z.div;
  of_nat := Z.of_nat;
  toString := pretty;
  toFixed1 := fun z => pretty z +:+ ".0";
  toLocaleString := pretty
|}.

Definition noon : Date := {| getHours := 12; getMinutes := 0; getSeconds := 7 |}.

Definition tick (v : Z) : Charts.sample := (noon, v, None).

Definition emptyChart : Charts.Chart Z := Charts.createMqChart false.

Definition blankPanel : Stats.Panel Z :=
  {| Stats.cpu_val := ""; Stats.cpu_bar_width := "";
     Stats.ram_val := ""; Stats.ram_bar_width := "";
     Stats.disk_val := ""; Stats.disk_bar_width := "";
     Stats.net_in_text := ""; Stats.net_out_text := "";
     Stats.mq_status_className := "badge bg-secondary";
     Stats.mq_status_innerText := "Unknown";
     Stats.mq_queued := "0"; Stats.mq_total := "0";
     Stats.mq_rate_in := "0.0"; Stats.mq_rate_out := "0.0";
     Stats.chartQueued := Charts.createMqChart false;
     Stats.chartTotal := Charts.createMqChart false;
     Stats.chartRate := Charts.createMqChart true |}.

Definition brokerBlock (st : string) (err : jsval) : Stats.RabbitMq Z :=
  {| Stats.status := JStr st;
     Stats.messages_ready := 5%Z; Stats.messages_total := 9%Z;
     Stats.publish_rate := 2%Z; Stats.deliver_rate := 1%Z;
     Stats.error := err |}.

Definition snapshot (mq : option (Stats.RabbitMq Z)) : Stats.SystemStats Z :=
  {| Stats.cpu := 10%Z; Stats.ram := 20%Z; Stats.ram_used := 2%Z;
     Stats.ram_total := 8%Z;
     Stats.disk := 30%Z; Stats.disk_used := 3%Z; Stats.disk_total := 10%Z;
     Stats.net_in := 1%Z; Stats.net_out := 1%Z;
     Stats.rabbitmq := mq |}.

(** An editor opened on connector [demo], with the badge text given. *)
Definition editing (badgeText : string) : Editor.State :=
  {| Editor.currentEditingName := JStr "demo";
     Editor.currentEditingUid := JStr "demo";
     Editor.editor :=
       {| Editor.value := "services: {}"; Editor.readOnly := true;
          Editor.borderColor := "" |};
     Editor.msg := {| Editor.msg_innerText := ""; Editor.msg_className := "" |};
     Editor.btn_lock_hidden := false;
     Editor.btn_save_hidden := true;
     Editor.configModalLabel := "Config Editor: demo";
     Editor.configModal_shown := true;
     Editor.password :=
       {| Editor.passwordModal_shown := false; Editor.unlock_password := "";
          Editor.password_error := "" |};
     Editor.alerts := [];
     Editor.badges :=
       {[ "status-connector_demo" :=
            {| Badges.className := "badge bg-secondary ms-2";
               Badges.innerText := badgeText |} ]} |}.

(** The same editor with [pwd] typed into the password prompt. *)
Definition typed (pwd : string) (s : Editor.State) : Editor.State :=
  Editor.with_password
    {| Editor.passwordModal_shown := true; Editor.unlock_password := pwd;
       Editor.password_error := "" |} s.

(** The same editor after a correct password. *)
Definition unlocked (s : Editor.State) : Editor.State :=
  Editor.checkPassword (typed Editor.sharedPassword s).

Definition saveReply (st : string) (err : jsval) : Editor.SaveReply :=
  {| Editor.save_status := JStr st;
     Editor.backup := JStr "docker-compose.yml.bak";
     Editor.save_error := err |}.

Definition item (n : string) (v : bool) : Connectors.Item :=
  {| Connectors.name := n; Connectors.has_config := v |}.

Definition card (k : nat) (n : string) (v : bool) : Connectors.Element :=
  {| Connectors.nid := k;
     Connectors.node :=
       Connectors.CardCol (Connectors.createConnectorHtml n v (replace_non_alnum n)) |}.

(** A container showing connectors [a] and [b], both valid. *)
Definition abCards : Connectors.Page :=
  {| Connectors.btn_refresh := None;
     Connectors.children := [card 0 "a" true; card 1 "b" true];
     Connectors.next_nid := 2 |}.

(** Two cards of the same name, as left by a list that names [a] twice. *)
Definition twoCards : Connectors.Page :=
  {| Connectors.btn_refresh := None;
     Connectors.children := [card 0 "a" true; card 1 "a" true];
     Connectors.next_nid := 2 |}.

End Samples.

(** ** More string built-ins *)

Module Text.
Import Js.

Definition upper_char (c : ascii) : ascii :=
  if is_lower c then ascii_of_nat (nat_of_ascii c - 32) else c.

(** [s.toUpperCase()] *)
Definition toUpperCase (s : string) : string := map_string upper_char s.

(** [s.substring(from, to)]: both ends are clamped to the length and
    swapped when out of order. *)
Definition substring (from to : nat) (s : string) : string :=
  let a := Nat.min from (String.length s) in
  let b := Nat.min to (String.length s) in
  String.substring (Nat.min a b) (Nat.max a b - Nat.min a b) s.

(** [s.substring(from)] *)
Definition substring_from (from : nat) (s : string) : string :=
  substring from (String.length s) s.

(** Every character of [s] passes [ok]. *)
Fixpoint every (ok : ascii -> bool) (s : string) : bool :=
  match s with
  | EmptyString => true
  | String c s' => ok c && every ok s'
  end.

(** The characters the pattern [[a-zA-Z0-9]] accepts. *)
Definition is_alnum (c : ascii) : bool := is_upper c || is_lower c || is_digit c.

(** Truthiness of a value the script tests with [if (v)]. *)
Definition truthy (v : jsval) : bool :=
  match v with
  | JStr s => negb (bool_decide (s = ""))
  | _ => false
  end.

End Text.

(** ** Charts that share a labels array: [loadHistory] and the live ticks

    [loadHistory] assigns one [labels] array to all six charts, and
    [updateChart] changes the labels array of its chart in place.  Here the
    labels arrays live in a store and a chart holds a reference to one. *)

Module Live.
Import Js Charts History.

Section WithNumbers.
Context {num : Type} `{!Number num}.

(** [falsy] says which numbers count as false in [v || 0] (zero and
    not-a-number). *)
Context (falsy : num -> bool).

(** A chart: the reference of its labels array and its datasets. *)
Record ChartRef := {
  labels_ref : nat;
  data0 : list num;
  data_tail : list (list num)
}.

(** The labels arrays by reference, the reference of the next array, the
    six charts and the three average read-outs. *)
Record Board := {
  arrays : gmap nat (list string);
  next_ref : nat;
  histCpu : ChartRef;
  histRam : ChartRef;
  histDisk : ChartRef;
  chartQueued : ChartRef;
  chartTotal : ChartRef;
  chartRate : ChartRef;
  avg_cpu : string;
  avg_ram : string;
  avg_disk : string
}.

(** [chart.data] as it reads at the moment. *)
Definition view (arr : gmap nat (list string)) (c : ChartRef) : Chart num :=
  {| labels := arr !!! labels_ref c; dataset0 := data0 c; datasets_tail := data_tail c |}.

(** [updateChart] on a chart of the store: the labels array is changed in
    place, for every chart that refers to it. *)
Definition updateChartRef (now : Date) (c : ChartRef) (val1 : num) (val2 : option num)
    (arr : gmap nat (list string)) : gmap nat (list string) * ChartRef :=
  let c' := updateChart now (view arr c) val1 val2 in
  (<[labels_ref c := labels c']> arr,
   {| labels_ref := labels_ref c; data0 := dataset0 c'; data_tail := datasets_tail c' |}).

(** The charts as the script creates them: each with a labels array of its
    own. *)
Definition createCharts : Board :=
  {| arrays := {[ 0 := []; 1 := []; 2 := []; 3 := []; 4 := []; 5 := [] ]};
     next_ref := 6;
     histCpu := {| labels_ref := 0; data0 := []; data_tail := [] |};
     histRam := {| labels_ref := 1; data0 := []; data_tail := [] |};
     histDisk := {| labels_ref := 2; data0 := []; data_tail := [] |};
     chartQueued := {| labels_ref := 3; data0 := []; data_tail := [] |};
     chartTotal := {| labels_ref := 4; data0 := []; data_tail := [] |};
     chartRate := {| labels_ref := 5; data0 := []; data_tail := [[]] |};
     avg_cpu := ""; avg_ram := ""; avg_disk := "" |}.

(** A point of the history reply; [timestamp] is the local time that
    [new Date(p.timestamp)] reads, the queue figures are [None] when the
    point has none. *)
Record HistoryPoint := {
  timestamp : Date;
  h_cpu : num;
  h_ram : num;
  h_disk : num;
  h_mq_queued : option num;
  h_mq_total : option num;
  h_mq_rate_in : option num;
  h_mq_rate_out : option num
}.

(** [p.x || 0] *)
Definition or_zero (v : option num) : num :=
  match v with
  | Some x => if falsy x then of_nat 0 else x
  | None => of_nat 0
  end.

Definition histLabel (p : HistoryPoint) : string :=
  padStart0 2 (pretty (getHours (timestamp p))) +:+ ":" +:+
  padStart0 2 (pretty (getMinutes (timestamp p))).

(** [`Avg: ${calculateAverage(data)}%`] *)
Definition avgText (data : list num) : string :=
  "Avg: " +:+
  match calculateAverage (Some data) with
  | AvgNumber n => toString n
  | AvgString s => s
  end +:+ "%".

(** [chart.data.labels = labels; chart.data.datasets[0].data = data] *)
Definition setSeries (r : nat) (data : list num) (c : ChartRef) : ChartRef :=
  {| labels_ref := r; data0 := data; data_tail := data_tail c |}.

(** [if (datasets.length > 1) datasets[1].data = data] *)
Definition setSecond (data : list num) (c : ChartRef) : ChartRef :=
  {| labels_ref := labels_ref c; data0 := data0 c;
     data_tail := match data_tail c with
                  | [] => []
                  | _ :: rest => data :: rest
                  end |}.

(** The callback of [loadHistory] on a reply [d]; [d_data] is [d.data],
    [None] when the reply has none. *)
Definition loadHistory_settled (d_data : option (list HistoryPoint)) (b : Board) : Board :=
  let data := default [] d_data in
  let r := next_ref b in
  {| arrays := <[r := histLabel <$> data]> (arrays b);
     next_ref := S r;
     histCpu := setSeries r (h_cpu <$> data) (histCpu b);
     histRam := setSeries r (h_ram <$> data) (histRam b);
     histDisk := setSeries r (h_disk <$> data) (histDisk b);
     chartQueued := setSeries r ((fun p => or_zero (h_mq_queued p)) <$> data) (chartQueued b);
     chartTotal := setSeries r ((fun p => or_zero (h_mq_total p)) <$> data) (chartTotal b);
     chartRate :=
       setSecond ((fun p => or_zero (h_mq_rate_out p)) <$> data)
         (setSeries r ((fun p => or_zero (h_mq_rate_in p)) <$> data) (chartRate b));
     avg_cpu := avgText (h_cpu <$> data);
     avg_ram := avgText (h_ram <$> data);
     avg_disk := avgText (h_disk <$> data) |}.

(** The four figures of an online broker block that reach the charts. *)
Record Tick := {
  at1 : Date; at2 : Date; at3 : Date;
  ready : num; total : num; published : num; delivered : num
}.

(** The three [updateChart] calls of the online branch of
    [system_stats], in their order. *)
Definition liveTick (t : Tick) (b : Board) : Board :=
  let '(arr1, q) := updateChartRef (at1 t) (chartQueued b) (ready t) None (arrays b) in
  let '(arr2, tq) := updateChartRef (at2 t) (chartTotal b) (total t) None arr1 in
  let '(arr3, r) :=
    updateChartRef (at3 t) (chartRate b) (published t) (Some (delivered t)) arr2 in
  {| arrays := arr3; next_ref := next_ref b;
     histCpu := histCpu b; histRam := histRam b; histDisk := histDisk b;
     chartQueued := q; chartTotal := tq; chartRate := r;
     avg_cpu := avg_cpu b; avg_ram := avg_ram b; avg_disk := avg_disk b |}.

Definition liveTicks (ts : list Tick) (b : Board) : Board := foldl (fun b t => liveTick t b) b ts.

(** The labels a chart of the board shows. *)
Definition labelsOf (b : Board) (c : ChartRef) : list string := arrays b !!! labels_ref c.

Definition historyCharts (b : Board) : list ChartRef := [histCpu b; histRam b; histDisk b].

Definition queueCharts (b : Board) : list ChartRef := [chartQueued b; chartTotal b; chartRate b].

(** All six charts refer to the labels array [r]. *)
Definition sharesLabels (r : nat) (b : Board) : Prop :=
  Forall (fun c => labels_ref c = r) (historyCharts b ++ queueCharts b).

End WithNumbers.
Arguments ChartRef : clear implicits.
Arguments Board : clear implicits.
Arguments HistoryPoint : clear implicits.
Arguments Tick : clear implicits.

End Live.

(** ** The terminal under every function that writes to it *)

Module Console.
Import Js Text Terminal.

(** The payload of [socket.emit('docker_action', ...)]. *)
Record DockerAction := { da_type : string; da_action : string; da_target_name : jsval }.

(** [sendAction(type, action, targetName = null)]: the line logged and the
    message emitted.  An [undefined] target takes the default [null]. *)
Definition sendAction (type action : string) (targetName : jsval) (terminal : list Line)
  : list Line * DockerAction :=
  let target := match targetName with JUndefined => JNull | v => v end in
  let msg := "Requesting: Docker Compose " +:+ toUpperCase action +:+ " for " +:+ type in
  let msg := if truthy target then msg +:+ " (" +:+ template target +:+ ")" else msg in
  (logToTerminal (msg +:+ "...") terminal,
   {| da_type := type; da_action := action; da_target_name := target |}).

(** What can happen to the terminal. *)
Inductive Event :=
| Connected
| Disconnected
| CommandOutput (line : string)
| ActionSent (type action : string) (targetName : jsval)
| Cleared.

#[global] Instance Event_eq_dec : EqDecision Event.
Proof. solve_decision. Defined.

Definition handle (terminal : list Line) (e : Event) : list Line :=
  match e with
  | Connected => on_connect terminal
  | Disconnected => on_disconnect terminal
  | CommandOutput line => on_command_output line terminal
  | ActionSent type action targetName => (sendAction type action targetName terminal).1
  | Cleared => clearTerminal terminal
  end.

Definition run (events : list Event) (terminal : list Line) : list Line :=
  foldl handle terminal events.

End Console.

(** ** The configuration editor under every function that touches it *)

Module Session.
Import Js Text Badges Editor.

(** [editorCopy()] up to the timer: the selection it makes and drops is
    not represented. *)
Definition editorCopy (s : State) : State :=
  with_msg {| msg_innerText := "Copied to clipboard!";
              msg_className := "text-success small ms-2" |} s.

(** The callback [editorCopy] leaves with [setTimeout]. *)
Definition editorCopy_timeout (s : State) : State :=
  with_msg {| msg_innerText := ""; msg_className := msg_className (msg s) |} s.

(** The selection of the text area. *)
Record Selection := { selectionStart : nat; selectionEnd : nat }.

Definition pasteBlocked : string := "Unlock the editor first!".

Definition pasteFailed : string :=
  "Paste failed: Browser may block clipboard access in this context. Use Ctrl+V.".

(** [editorPaste()] up to the [await]: [true] when the clipboard is being
    read. *)
Definition editorPaste (s : State) : State * bool :=
  if readOnly (editor s) then (alert pasteBlocked s, false) else (s, true).

(** [editorPaste()] after the [await], on the page as it is then; the
    clipboard gave [text] or the read was rejected. *)
Definition editorPaste_settled (clip : Fetched string) (sel : Selection) (s : State)
  : State * Selection :=
  match clip with
  | Replied text =>
      if bool_decide (text = "") then (s, sel)
      else
        let val := value (editor s) in
        (with_editor
           {| value := substring 0 (selectionStart sel) val +:+ text +:+
                       substring_from (selectionEnd sel) val;
              readOnly := readOnly (editor s);
              borderColor := borderColor (editor s) |} s,
         {| selectionStart := selectionStart sel + String.length text;
            selectionEnd := selectionStart sel + String.length text |})
  | Rejected => (alert pasteFailed s, sel)
  end.

(** What can happen to the editor: the calls of the script, the replies
    and timers it waits for, and the user typing into the password
    prompt.  A reply or a timer is taken in any state, also one in which
    the script is not waiting for it: the runs of the script are among the
    runs of these steps. *)
Inductive Op :=
| OpenEditor (name uid : string)
| ConfigLoaded (r : Fetched ConfigReply)
| UnlockConfig
| TypePassword (pwd : string)
| CheckPassword
| SaveConfig
| SaveSettled (r : Fetched SaveReply)
| Copy
| CopyTimeout
| Paste
| PasteSettled (clip : Fetched string) (sel : Selection).

Definition apply (s : State) (op : Op) : State :=
  match op with
  | OpenEditor name uid => openEditor name uid s
  | ConfigLoaded r => openEditor_settled r s
  | UnlockConfig => unlockConfig s
  | TypePassword pwd =>
      with_password {| passwordModal_shown := passwordModal_shown (password s);
                       unlock_password := pwd;
                       password_error := password_error (password s) |} s
  | CheckPassword => checkPassword s
  | SaveConfig => (saveConfig s).1
  | SaveSettled r => saveConfig_settled r s
  | Copy => editorCopy s
  | CopyTimeout => editorCopy_timeout s
  | Paste => (editorPaste s).1
  | PasteSettled clip sel => (editorPaste_settled clip sel s).1
  end.

Definition run (ops : list Op) (s : State) : State := foldl apply s ops.

(** The buttons agree with the editor: the save button shows exactly when
    the editor is writable, the lock button exactly when it is not. *)
Definition coherent (s : State) : Prop :=
  btn_save_hidden s = readOnly (editor s) /\
  btn_lock_hidden s = negb (readOnly (editor s)).

End Session.

(** ** The refresh button and runs of discovery replies *)

Module Discovery.
Import Js Connectors.

(** [refreshConnectors()]: [None] is the [TypeError] raised when the page
    has no refresh button.  The request it emits carries no data. *)
Definition refreshConnectors (p : Page) : option Page :=
  match btn_refresh p with
  | None => None
  | Some b =>
      Some {| btn_refresh :=
                Some {| disabled := true;
                        icon_animation := "spin 1s linear infinite";
                        icon_classList :=
                          classList_add "bi-arrow-repeat"
                            (classList_remove "bi-arrow-clockwise"
                               (classList_add "spin-animation" (icon_classList b))) |};
              children := children p;
              next_nid := next_nid p |}
  end.

(** A run of [known_connectors] replies, oldest first. *)
Fixpoint replies (lists : list (list Item)) (p : Page) : option Page :=
  match lists with
  | [] => Some p
  | items :: rest =>
      match on_known_connectors items p with
      | Some p' => replies rest p'
      | None => None
      end
  end.

End Discovery.

(** ** The table of running containers *)

Module Containers.

(** An entry of a [container_list] message. *)
Record Container := {
  c_id : string; c_name : string; c_image : string; c_status : string; c_uptime : string
}.

(** A row of [containers-table-body]: the placeholder, or the row made for
    a container.  Field values are taken as they are: markup in a value is
    outside the model. *)
Inductive Row :=
| NoContainers
| ContainerRow (c : Container).

(** [socket.on('container_list', ...)] *)
Definition on_container_list (data : list Container) (tbody : list Row) : list Row :=
  let tbody := [] in
  if decide (length data = 0) then [NoContainers]
  else foldl (fun rows c => rows ++ [ContainerRow c]) tbody data.

End Containers.

(** ** Sample boards, sessions and pages *)

Module Scenarios.
Import Js Samples.

(** Zero is the only whole number that counts as false. *)
Definition falsyZ (z : Z) : bool := bool_decide (z = 0%Z).

(** A chart that holds more points than the live window. *)
Definition crowded : Charts.Chart Z :=
  {| Charts.labels := replicate 25 "11:59:00";
     Charts.dataset0 := replicate 25 0%Z;
     Charts.datasets_tail := [] |}.

Definition rateSample (v w : Z) : Charts.sample := (noon, v, Some w).

Definition reading (h m : nat) (cpu : Z) : Live.HistoryPoint Z :=
  {| Live.timestamp := {| getHours := h; getMinutes := m; getSeconds := 0 |};
     Live.h_cpu := cpu; Live.h_ram := 40%Z; Live.h_disk := 55%Z;
     Live.h_mq_queued := Some 3%Z; Live.h_mq_total := Some 0%Z;
     Live.h_mq_rate_in := None; Live.h_mq_rate_out := Some 1%Z |}.

Definition morning : list (Live.HistoryPoint Z) := [reading 9 0 12%Z; reading 9 5 17%Z].

Definition wholeDay : list (Live.HistoryPoint Z) :=
  (fun h => reading h 0 10%Z) <$> seq 0 24.

(** The board when the script has just created the charts. *)
Definition freshBoard : Live.Board Z := Live.createCharts.

(** The board after a history reply of two points, and of twenty-four. *)
Definition afterMorning : Live.Board Z :=
  Live.loadHistory_settled falsyZ (Some morning) freshBoard.

Definition afterWholeDay : Live.Board Z :=
  Live.loadHistory_settled falsyZ (Some wholeDay) freshBoard.

Definition beat : Live.Tick Z :=
  {| Live.at1 := noon; Live.at2 := noon; Live.at3 := noon;
     Live.ready := 5%Z; Live.total := 9%Z;
     Live.published := 2%Z; Live.delivered := 1%Z |}.

Definition twoBadges : gmap string Badges.Badge :=
  {[ "status-web" := Badges.stoppedBadge; "status-db" := Badges.stoppedBadge ]}.

Definition beforeClear : list Console.Event :=
  [Console.Connected; Console.CommandOutput "Pulling image"].

Definition afterClear : list Console.Event :=
  [Console.ActionSent "connector" "up" (JStr "demo"); Console.Disconnected].

Definition caret : Session.Selection :=
  {| Session.selectionStart := 2; Session.selectionEnd := 5 |}.

(** A whole session: unlock, paste, save. *)
Definition editAndSave : list Session.Op :=
  [Session.ConfigLoaded Editor.Rejected; Session.UnlockConfig;
   Session.TypePassword Editor.sharedPassword; Session.CheckPassword;
   Session.Paste; Session.PasteSettled (Editor.Replied "new") caret;
   Session.SaveConfig;
   Session.SaveSettled (Editor.Replied (saveReply "success" JNull))].

(** A session with a wrong guess at the password. *)
Definition wrongGuess : list Session.Op :=
  [Session.UnlockConfig; Session.TypePassword "guess"; Session.CheckPassword;
   Session.SaveConfig; Session.SaveSettled Editor.Rejected;
   Session.Paste; Session.Copy; Session.CopyTimeout].

(** The reply to the request for the file of connector [a]. *)
Definition configOfA : Editor.ConfigReply :=
  {| Editor.content := JStr "services: a"; Editor.load_error := JUndefined |}.

Definition idleButton : Connectors.RefreshButton :=
  {| Connectors.disabled := false; Connectors.icon_animation := "";
     Connectors.icon_classList := ["bi"; "bi-arrow-clockwise"] |}.

(** A page with the refresh button and one card. *)
Definition idlePage : Connectors.Page :=
  {| Connectors.btn_refresh := Some idleButton;
     Connectors.children := [card 0 "a" true];
     Connectors.next_nid := 1 |}.

Definition loadingNode : Connectors.Element :=
  {| Connectors.nid := 0;
     Connectors.node := Connectors.Plain "connectors-loading" "Scanning..." |}.

Definition noteNode : Connectors.Element :=
  {| Connectors.nid := 1; Connectors.node := Connectors.Plain "" "Connectors" |}.

(** A page as first served: the loading placeholder, a heading and a
    card. *)
Definition firstPage : Connectors.Page :=
  {| Connectors.btn_refresh := None;
     Connectors.children := [loadingNode; noteNode; card 2 "a" true];
     Connectors.next_nid := 3 |}.

End Scenarios.

(** * Properties *)

Import Js.

(** ** Live queue charts *)

Section ChartFacts.
Import Charts.
Context {num : Type}.
Implicit Types (c : Chart num) (now : Date) (v : num) (w : option num).

Lemma updateChart_labels_length now c v w :
  length (labels (updateChart now c v w)) =
  if decide (20 < length (labels c)) then length (labels c) else S (length (labels c)).
Proof.
  unfold updateChart. destruct (decide _) as [Hlt|Hge]; simpl.
  - rewrite length_app. unfold shift. destruct (labels c); simpl in *; lia.
  - rewrite length_app. simpl. lia.
Qed.

Lemma updateChart_dataset0_length now c v w :
  length (dataset0 c) = length (labels c) ->
  length (dataset0 (updateChart now c v w)) = length (labels (updateChart now c v w)).
Proof.
  intros Heq. unfold updateChart. destruct (decide _); simpl;
    rewrite !length_app; unfold shift; simpl; [|lia].
  destruct (labels c), (dataset0 c); simpl in *; lia.
Qed.

Lemma updates_labels_length (calls : list (@sample num)) c :
  length (labels c) <= 21 ->
  length (labels (updates c calls)) = Nat.min (length (labels c) + length calls) 21.
Proof.
  revert c. induction calls as [|[[now v] w] calls IH]; intros c Hc; simpl.
  - lia.
  - unfold updates in *. simpl. rewrite IH; rewrite updateChart_labels_length;
      destruct (decide _); lia.
Qed.

Lemma updates_dataset0_length (calls : list (@sample num)) c :
  length (dataset0 c) = length (labels c) ->
  length (dataset0 (updates c calls)) = length (labels (updates c calls)).
Proof.
  revert c. induction calls as [|[[now v] w] calls IH]; intros c Hc; simpl; [done|].
  unfold updates in *. simpl. apply IH. by apply updateChart_dataset0_length.
Qed.

(** What [updateChart] really keeps: from an empty chart the buffers hold at
    most 21 points, and the primary dataset has as many points as there are
    labels. *)
Lemma updateChart_bound (calls : list (@sample num)) color2 :
  length (labels (updates (createMqChart color2) calls)) <= 21 /\
  length (dataset0 (updates (createMqChart color2) calls)) =
  length (labels (updates (createMqChart color2) calls)).
Proof.
  split.
  - rewrite updates_labels_length; simpl; lia.
  - by apply updates_dataset0_length.
Qed.

(** C6 (the code departs from its stated limit): the comment in
    [updateChart] reads "Limit history to 20 points", but the guard is
    [length > 20], so the twenty-first call in a row from an empty chart
    evicts nothing: the chart then stores 21 labels and 21 points in the
    primary dataset. *)
Theorem updateChart_twenty_one_points (calls : list (@sample num)) color2 :
  length calls = 21 ->
  length (labels (updates (createMqChart color2) calls)) = 21 /\
  length (dataset0 (updates (createMqChart color2) calls)) = 21.
Proof.
  intros Hn.
  assert (length (labels (updates (createMqChart color2) calls)) = 21) as Hl.
  { rewrite updates_labels_length; simpl; lia. }
  split; [done|]. rewrite updates_dataset0_length; done.
Qed.

End ChartFacts.

Lemma updateChart_twenty_one_points_witness :
  length (Charts.labels (Charts.updates Samples.emptyChart (Samples.tick <$> seqZ 1 21))) = 21 /\
  length (Charts.dataset0 (Charts.updates Samples.emptyChart (Samples.tick <$> seqZ 1 21))) = 21.
Proof.
  apply (updateChart_twenty_one_points (Samples.tick <$> seqZ 1 21) false).
  reflexivity.
Defined.

(** ** The command terminal *)

Section TerminalFacts.
Import Terminal.

Lemma deliver_app (lines : list string) (terminal : list Line) :
  deliver lines terminal = terminal ++ (lineOf <$> lines).
Proof.
  revert terminal. induction lines as [|l lines IH]; intros terminal; simpl.
  - by rewrite app_nil_r.
  - unfold deliver in *. simpl. rewrite IH. unfold on_command_output, logToTerminal.
    by rewrite <- app_assoc.
Qed.

(** C7: a run of [command_output] events appends one line per event at the
    end of the terminal, in delivery order: the transcript is what was there
    before, followed by the received lines, nothing dropped, moved or put
    elsewhere; on an empty terminal it is exactly the received lines. *)
Theorem command_output_in_order (lines : list string) (terminal : list Line) :
  deliver lines terminal = terminal ++ (lineOf <$> lines) /\
  textContent <$> deliver lines terminal = (textContent <$> terminal) ++ lines /\
  textContent <$> deliver lines [] = lines.
Proof.
  assert (forall ls : list string, textContent <$> (lineOf <$> ls) = ls) as Hid.
  { intros ls. induction ls as [|x ls IH]; [done|]. by rewrite !fmap_cons, IH. }
  rewrite !deliver_app. split; [done|]. split.
  - by rewrite fmap_app, Hid.
  - simpl. apply Hid.
Qed.

End TerminalFacts.

(** ** Averages *)

Section AverageFacts.
Import History.
Context {num : Type} `{!Number num}.


End AverageFacts.

(** ** Status badges *)

Section BadgeFacts.
Import Badges.
Implicit Types (doc : gmap string Badge) (entries : list (string * jsval)).

Lemma badgeId_inj (k1 k2 : string) : badgeId k1 = badgeId k2 -> k1 = k2.
Proof. unfold badgeId. simpl. intros H. by simplify_eq. Qed.

Lemma setBadge_same doc key status b :
  doc !! badgeId key = Some b ->
  setBadge doc (key, status) !! badgeId key = Some (shownFor status).
Proof.
  intros Hb. unfold setBadge, shownFor. rewrite Hb.
  destruct (strict_eq_str status "running"); by rewrite lookup_insert_eq.
Qed.

Lemma setBadge_other doc key key' status :
  key <> key' ->
  setBadge doc (key', status) !! badgeId key = doc !! badgeId key.
Proof.
  intros Hne. unfold setBadge. destruct (doc !! badgeId key'); [|done].
  destruct (strict_eq_str status "running"); rewrite lookup_insert_ne; try done;
    intros Heq; by apply badgeId_inj in Heq.
Qed.

Lemma on_status_update_cons entry entries doc :
  on_status_update (entry :: entries) doc = on_status_update entries (setBadge doc entry).
Proof. reflexivity. Qed.

Lemma on_status_update_other entries doc key :
  key ∉ entries.*1 ->
  on_status_update entries doc !! badgeId key = doc !! badgeId key.
Proof.
  revert doc. induction entries as [|[k st] entries IH]; intros doc Hnotin; [done|].
  apply not_elem_of_cons in Hnotin as [Hne Hnotin].
  rewrite on_status_update_cons, IH by done. by apply setBadge_other.
Qed.

Lemma on_status_update_entry entries doc key status b :
  NoDup entries.*1 ->
  (key, status) ∈ entries ->
  doc !! badgeId key = Some b ->
  on_status_update entries doc !! badgeId key = Some (shownFor status).
Proof.
  revert doc b. induction entries as [|[k st] entries IH]; intros doc b Hnd Hin Hb.
  - by apply elem_of_nil in Hin.
  - apply NoDup_cons in Hnd as [Hk Hnd]. rewrite on_status_update_cons.
    apply elem_of_cons in Hin as [Heq|Hin].
    + simplify_eq. rewrite on_status_update_other by done. by eapply setBadge_same.
    + assert (key <> k) as Hne.
      { intros ->. apply Hk. apply list_elem_of_fmap. by exists (k, status). }
      destruct (setBadge doc (k, st) !! badgeId key) as [b'|] eqn:Hb'.
      * by eapply IH.
      * rewrite setBadge_other in Hb' by done. congruence.
Qed.

(** C9: for a [status_update] mapping, taken as the entries of an object
    (no key twice), and a key of it whose badge element exists, the badge
    afterwards reads [Running] exactly when the value is the string
    [running], and reads [Stopped] for every other value. *)
Theorem status_update_badge entries doc key status b :
  NoDup entries.*1 ->
  (key, status) ∈ entries ->
  doc !! badgeId key = Some b ->
  exists b',
    on_status_update entries doc !! badgeId key = Some b' /\
    (innerText b' = "Running" <-> status = JStr "running") /\
    (status <> JStr "running" -> b' = stoppedBadge) /\
    (status = JStr "running" -> b' = runningBadge).
Proof.
  intros Hnd Hin Hb. exists (shownFor status). split.
  - by eapply on_status_update_entry.
  - unfold shownFor, strict_eq_str. case_bool_decide as Hst; simpl.
    + by repeat split.
    + by repeat split.
Qed.

End BadgeFacts.

Lemma status_update_badge_witness :
  exists b',
    Badges.on_status_update [("core", JStr "running"); ("connector_demo", JStr "exited")]
      (Editor.badges (Samples.editing "Checking...")) !! Badges.badgeId "connector_demo"
    = Some b' /\
    (Badges.innerText b' = "Running" <-> JStr "exited" = JStr "running") /\
    (JStr "exited" <> JStr "running" -> b' = Badges.stoppedBadge) /\
    (JStr "exited" = JStr "running" -> b' = Badges.runningBadge).
Proof.
  eapply (status_update_badge
            [("core", JStr "running"); ("connector_demo", JStr "exited")]).
  - compute_done.
  - compute_done.
  - reflexivity.
Defined.

(** ** The metrics panel *)

Section StatsFacts.
Import Charts Stats.
Context {num : Type} `{!Number num}.

Lemma updateChart_gains_point now (c : Chart num) v w :
  gains_point now v c (updateChart now c v w).
Proof.
  unfold gains_point, updateChart. destruct (decide _).
  - exists 1. split; [lia|]. unfold shift. simpl. by destruct (labels c), (dataset0 c).
  - exists 0. split; [lia|done].
Qed.


End StatsFacts.



(** ** The configuration editor *)

Section EditorFacts.
Import Badges Editor.
Implicit Types (s : State).

(** C2 (amended): when the reply to the save arrives.  With status
    [success] the session is locked again: the editor is read-only, the lock
    button shows, the save button is hidden and the message names the
    backup.  With any other status the editor, the buttons and the password
    prompt are left as they are, so an unlocked session stays unlocked, and
    the message is the reply's error string, or [Save failed] when the
    reply has no error string or an empty one. *)
Theorem saveConfig_settled_reply (data : SaveReply) s :
  let s' := saveConfig_settled (Replied data) s in
  (save_status data = JStr "success" ->
     readOnly (editor s') = true /\
     btn_lock_hidden s' = false /\
     btn_save_hidden s' = true /\
     msg_innerText (msg s') = "Saved! Backup: " +:+ template (backup data)) /\
  (save_status data <> JStr "success" ->
     editor s' = editor s /\
     btn_lock_hidden s' = btn_lock_hidden s /\
     btn_save_hidden s' = btn_save_hidden s /\
     password s' = password s /\
     msg_innerText (msg s') = or_default (save_error data) "Save failed" /\
     (forall e, save_error data = JStr e -> e <> "" -> msg_innerText (msg s') = e)).
Proof.
  intros s'. subst s'. unfold saveConfig_settled, strict_eq_str. split; intros Hst.
  - by rewrite bool_decide_eq_true_2.
  - rewrite bool_decide_eq_false_2 by done. simpl. repeat split.
    intros e -> Hne. simpl. by destruct (decide (e = "")).
Qed.

(** C3: [checkPassword] unlocks exactly on the shared password.  With it,
    the prompt is hidden, the editor is writable, the save button shows and
    the lock button is hidden; with anything else the only change is the
    error line, which reads [Incorrect password.]; so a read-only editor
    becomes writable if and only if the password is the shared one. *)
Theorem checkPassword_unlocks_iff s :
  let pwd := unlock_password (password s) in
  let s' := checkPassword s in
  (pwd = sharedPassword ->
     passwordModal_shown (password s') = false /\
     readOnly (editor s') = false /\
     btn_save_hidden s' = false /\
     btn_lock_hidden s' = true) /\
  (pwd <> sharedPassword ->
     s' = with_password {| passwordModal_shown := passwordModal_shown (password s);
                           unlock_password := pwd;
                           password_error := "Incorrect password." |} s /\
     password_error (password s') = "Incorrect password." /\
     editor s' = editor s) /\
  (readOnly (editor s) = true ->
     (readOnly (editor s') = false <-> pwd = sharedPassword)).
Proof.
  intros pwd s'. subst pwd s'. unfold checkPassword.
  destruct (decide (unlock_password (password s) = sharedPassword)) as [Heq|Hne]; simpl.
  - repeat split; try done.
  - repeat split; try done. intros Hro. congruence.
Qed.

Lemma unlockConfig_blocked s :
  readsRunning s -> unlockConfig s = alert stopFirst s.
Proof.
  intros (b & Hb & Hrun). unfold unlockConfig. rewrite Hb.
  by rewrite bool_decide_eq_true_2.
Qed.

Lemma unlockConfig_prompts s :
  ~ readsRunning s -> unlockConfig s = prompted s.
Proof.
  intros Hnot. unfold unlockConfig.
  destruct (badges s !! connectorBadgeId s) as [b|] eqn:Hb; [|done].
  rewrite bool_decide_eq_false_2; [done|].
  intros Hrun. apply Hnot. by exists b.
Qed.


End EditorFacts.

Lemma saveConfig_settled_reply_witness :
  Editor.readOnly (Editor.editor
    (Editor.saveConfig_settled (Editor.Replied (Samples.saveReply "success" JUndefined))
       (Samples.unlocked (Samples.editing "Stopped")))) = true /\
  Editor.editor
    (Editor.saveConfig_settled
       (Editor.Replied (Samples.saveReply "error" (JStr "Connector is running")))
       (Samples.unlocked (Samples.editing "Stopped")))
  = Editor.editor (Samples.unlocked (Samples.editing "Stopped")).
Proof.
  split.
  - destruct (saveConfig_settled_reply (Samples.saveReply "success" JUndefined)
                (Samples.unlocked (Samples.editing "Stopped"))) as [Hok _].
    destruct Hok as (Hro & _); [reflexivity|exact Hro].
  - destruct (saveConfig_settled_reply
                (Samples.saveReply "error" (JStr "Connector is running"))
                (Samples.unlocked (Samples.editing "Stopped"))) as [_ Herr].
    destruct Herr as (Hed & _); [discriminate|exact Hed].
Defined.

(** C2 as first stated fails: an empty error string is not what the
    message shows. *)
Lemma saveConfig_error_counterexample :
  ~ (forall (data : Editor.SaveReply) (e : string),
       Editor.save_status data <> JStr "success" ->
       Editor.save_error data = JStr e ->
       Editor.msg_innerText (Editor.msg
         (Editor.saveConfig_settled (Editor.Replied data)
            (Samples.unlocked (Samples.editing "Stopped")))) = e).
Proof.
  intros H. specialize (H (Samples.saveReply "error" (JStr "")) "").
  discriminate H; [discriminate|reflexivity].
Qed.

Lemma checkPassword_unlocks_iff_witness :
  Editor.readOnly (Editor.editor
    (Editor.checkPassword (Samples.typed "P@ssw0rd" (Samples.editing "Stopped")))) = false /\
  Editor.editor (Editor.checkPassword (Samples.typed "password" (Samples.editing "Stopped")))
  = Editor.editor (Samples.typed "password" (Samples.editing "Stopped")).
Proof.
  split.
  - destruct (checkPassword_unlocks_iff
                (Samples.typed "P@ssw0rd" (Samples.editing "Stopped"))) as (Hok & _ & Hiff).
    apply Hiff; reflexivity.
  - destruct (checkPassword_unlocks_iff
                (Samples.typed "password" (Samples.editing "Stopped"))) as (_ & Hbad & _).
    destruct Hbad as (_ & _ & Hed); [discriminate|exact Hed].
Defined.



(** ** Connector discovery *)

Section ListFacts.
Context {A : Type}.
Implicit Types (l : list A) (f : A -> bool).

Lemma find_app f l1 l2 :
  find f (l1 ++ l2) = match find f l1 with Some x => Some x | None => find f l2 end.
Proof. induction l1 as [|x l1 IH]; simpl; [done|]. by destruct (f x). Qed.

Lemma find_elem_of f l x : find f l = Some x -> x ∈ l /\ f x = true.
Proof. intros H. apply find_some in H as [Hin Hf]. by rewrite list_elem_of_In. Qed.

Lemma find_split f l x :
  find f l = Some x ->
  exists l1 l2, l = l1 ++ x :: l2 /\ f x = true /\ find f l1 = None.
Proof.
  induction l as [|y l IH]; simpl; [done|].
  destruct (f y) eqn:Hy.
  - intros [= ->]. by exists [], l.
  - intros (l1 & l2 & -> & Hx & Hnone)%IH. exists (y :: l1), l2. simpl. by rewrite Hy.
Qed.

Lemma find_is_Some f l x : x ∈ l -> f x = true -> is_Some (find f l).
Proof.
  intros Hin Hf. destruct (find f l) eqn:Hfind; [done|].
  apply list_elem_of_In in Hin. eapply find_none in Hfind; [|done]. congruence.
Qed.

Lemma fmap_unique {B} (g : A -> B) l x y :
  NoDup (g <$> l) -> x ∈ l -> y ∈ l -> g x = g y -> x = y.
Proof.
  induction l as [|a l IH]; intros Hnd Hx Hy Heq.
  - by apply elem_of_nil in Hx.
  - rewrite fmap_cons in Hnd. apply NoDup_cons in Hnd as [Ha Hnd].
    apply elem_of_cons in Hx as [->|Hx]; apply elem_of_cons in Hy as [->|Hy].
    + done.
    + destruct Ha. rewrite Heq. by apply list_elem_of_fmap_2.
    + destruct Ha. rewrite <- Heq. by apply list_elem_of_fmap_2.
    + by apply IH.
Qed.

Lemma filter_ext_elem (P Q : A -> Prop) `{!forall x, Decision (P x), !forall x, Decision (Q x)} l :
  (forall x, x ∈ l -> P x <-> Q x) -> filter P l = filter Q l.
Proof.
  induction l as [|x l IH]; intros Hall; [done|].
  rewrite !filter_cons. rewrite IH by (intros y Hy; apply Hall; by right).
  apply decide_ext, Hall. by left.
Qed.

Lemma filter_all (P : A -> Prop) `{!forall x, Decision (P x)} l :
  (forall x, x ∈ l -> P x) -> filter P l = l.
Proof.
  induction l as [|x l IH]; intros Hall; [done|].
  rewrite filter_cons_True by (apply Hall; by left).
  rewrite IH; [done|]. intros y Hy. apply Hall. by right.
Qed.

Lemma find_filter f (P : A -> Prop) `{!forall x, Decision (P x)} l :
  (forall x, x ∈ l -> f x = true -> P x) -> find f (filter P l) = find f l.
Proof.
  induction l as [|x l IH]; intros Hall; [done|].
  rewrite filter_cons. simpl.
  assert (find f (filter P l) = find f l) as IH'.
  { apply IH. intros y Hy. apply Hall. by right. }
  destruct (decide (P x)) as [HP|HP]; simpl; rewrite IH'; [done|].
  destruct (f x) eqn:Hf; [|done]. destruct HP. apply Hall; [by left|done].
Qed.

Lemma omap_filter {B} (g : A -> option B) (P : A -> Prop) `{!forall x, Decision (P x)} l :
  (forall x, x ∈ l -> is_Some (g x) -> P x) -> omap g (filter P l) = omap g l.
Proof.
  induction l as [|x l IH]; intros Hall; [done|].
  rewrite filter_cons.
  assert (omap g (filter P l) = omap g l) as IH'.
  { apply IH. intros y Hy. apply Hall. by right. }
  destruct (decide (P x)) as [HP|HP]; csimpl; rewrite IH'; [done|].
  destruct (g x) eqn:Hg; [|done]. destruct HP. apply Hall; [by left|by eexists].
Qed.

End ListFacts.

Section ConnectorFacts.
Import Connectors.
Implicit Types (p : Page) (l : list Element) (e c : Element) (E N : gset string).
Implicit Types (it : Item) (items : list Item) (n : string).

Lemma nid_unique l x y :
  NoDup (nid <$> l) -> x ∈ l -> y ∈ l -> nid x = nid y -> x = y.
Proof. apply fmap_unique. Qed.

Lemma named_true n e :
  named n e = true <-> exists cc : Card, card_of e = Some cc /\ data_name cc = n.
Proof.
  unfold named. destruct (card_of e) as [cc|].
  - rewrite bool_decide_eq_true. split.
    + intros Hn. by exists cc.
    + by intros (cc' & [= <-] & Hn).
  - split; [done|]. by intros (cc' & Hcc' & _).
Qed.

Lemma createConnectorHtml_name n v uid : data_name (createConnectorHtml n v uid) = n.
Proof. by destruct v. Qed.

Lemma named_created n k it : named n (created k it) = bool_decide (name it = n).
Proof. unfold named, created, rendered. simpl. by rewrite createConnectorHtml_name. Qed.

Lemma wasValid_created k it : wasValid (created k it) = has_config it.
Proof. unfold wasValid, created, rendered. simpl. by destruct (has_config it). Qed.

Lemma card_names_elem n l :
  n ∈ card_names l <-> exists e, e ∈ l /\ named n e = true.
Proof.
  unfold card_names. rewrite list_elem_of_omap. split.
  - intros (e & He & Hn). exists e. split; [done|]. apply named_true.
    destruct (card_of e) as [cc|]; simplify_eq/=. by exists cc.
  - intros (e & He & (cc & Hc & Hn)%named_true). exists e. split; [done|].
    by rewrite Hc; simpl; rewrite Hn.
Qed.

Lemma card_names_app l1 l2 : card_names (l1 ++ l2) = card_names l1 ++ card_names l2.
Proof. apply omap_app. Qed.

Lemma card_names_named n e : named n e = true -> card_names [e] = [n].
Proof. intros (cc & Hc & Hn)%named_true. unfold card_names. simpl. by rewrite Hc; simpl; rewrite Hn. Qed.

Lemma querySelector_elem n l c :
  querySelector n l = Some c -> c ∈ l /\ named n c = true.
Proof. apply find_elem_of. Qed.

Lemma querySelector_is_Some n l : n ∈ card_names l -> is_Some (querySelector n l).
Proof. intros (e & He & Hn)%card_names_elem. by eapply find_is_Some. Qed.

Lemma querySelector_first n l1 c l2 :
  named n c = true -> find (named n) l1 = None ->
  querySelector n (l1 ++ c :: l2) = Some c.
Proof. intros Hc Hnone. unfold querySelector. rewrite find_app, Hnone. simpl. by rewrite Hc. Qed.

Lemma querySelector_swap n l1 c c' l2 :
  named n c = named n c' ->
  (named n c = true -> find (named n) l1 = None -> False) \/ named n c = false ->
  querySelector n (l1 ++ c' :: l2) = querySelector n (l1 ++ c :: l2).
Proof.
  intros Heq Hcase. unfold querySelector. rewrite !find_app. simpl. rewrite <- Heq.
  destruct (find (named n) l1) eqn:Hl1; [done|].
  destruct (named n c) eqn:Hc; [|done]. destruct Hcase as [Hf|?]; [by destruct Hf|done].
Qed.

Lemma replace_node_split l1 c l2 new :
  NoDup (nid <$> (l1 ++ c :: l2)) ->
  replace_node (nid c) new (l1 ++ c :: l2) = l1 ++ new :: l2.
Proof.
  intros Hnd. unfold replace_node.
  assert (forall x, x ∈ l1 ++ l2 -> nid x <> nid c) as Hne.
  { intros x Hx Heq.
    assert (x = c) as ->.
    { eapply nid_unique; [done| | |done].
      - apply elem_of_app in Hx as [Hx|Hx]; apply elem_of_app; [by left|by right; right].
      - apply elem_of_app. right. by left. }
    rewrite fmap_app, fmap_cons in Hnd. apply NoDup_app in Hnd as (_ & Hdisj & Hnd).
    apply NoDup_cons in Hnd as [Hnot _].
    apply elem_of_app in Hx as [Hx|Hx].
    - eapply Hdisj; [by apply list_elem_of_fmap_2|]. by left.
    - apply Hnot. by apply list_elem_of_fmap_2. }
  rewrite fmap_app, fmap_cons. rewrite decide_True by done.
  f_equal; [|f_equal]; (etrans; [|apply list_fmap_id]); apply Forall_fmap_ext_1, Forall_forall;
    intros x Hx; rewrite decide_False; try done; apply Hne; set_solver.
Qed.

Lemma add_or_update_step E p it :
  well_formed p ->
  (forall n, n ∈ E -> n ∈ card_names (children p)) ->
  exists p1, add_or_update E p it = Some p1 /\ step E it p p1.
Proof.
  intros [Hnd Hlt] HE. unfold add_or_update.
  destruct (decide (name it ∉ E)) as [Hnew|Hold].
  - eexists. split; [done|]. by apply step_insert.
  - apply dec_stable in Hold.
    destruct (querySelector_is_Some (name it) (children p)) as [c Hc]; [by apply HE|].
    rewrite Hc. apply find_split in Hc as (l1 & l2 & Hsplit & Hnamed & Hnone).
    destruct (decide (wasValid c <> has_config it)) as [Hdiff|Hsame].
    + eexists. split; [done|]. unfold set_outerHTML.
      rewrite Hsplit, replace_node_split by (by rewrite <- Hsplit).
      by eapply step_replace.
    + apply dec_stable in Hsame. eexists. split; [done|]. by eapply step_keep.
Qed.

Lemma well_formed_app p it :
  well_formed p ->
  well_formed {| btn_refresh := btn_refresh p;
                 children := children p ++ [created (next_nid p) it];
                 next_nid := S (next_nid p) |}.
Proof.
  intros [Hnd Hlt]. split; simpl.
  - rewrite fmap_app. apply NoDup_app. split; [done|]. split; [|apply NoDup_singleton].
    intros k' (x & -> & Hx)%list_elem_of_fmap Hk'. apply list_elem_of_singleton in Hk'.
    rewrite Forall_forall in Hlt. apply Hlt in Hx. simpl in Hk'. lia.
  - apply Forall_app. split.
    + eapply Forall_impl; [done|]. simpl. lia.
    + apply Forall_singleton. simpl. lia.
Qed.

Lemma well_formed_replace p l1 c l2 it :
  well_formed p ->
  children p = l1 ++ c :: l2 ->
  well_formed {| btn_refresh := btn_refresh p;
                 children := l1 ++ created (next_nid p) it :: l2;
                 next_nid := S (next_nid p) |}.
Proof.
  intros [Hnd Hlt] Hsplit. rewrite Hsplit in Hnd, Hlt.
  rewrite Forall_app, Forall_cons in Hlt. destruct Hlt as (Hl1 & Hc & Hl2).
  rewrite fmap_app, fmap_cons in Hnd. apply NoDup_app in Hnd as (Hnd1 & Hdisj & Hnd2).
  apply NoDup_cons in Hnd2 as [Hnotin Hnd2].
  split; simpl.
  - rewrite fmap_app, fmap_cons. apply NoDup_app. split; [done|]. split.
    + intros k Hk1 Hk2. apply elem_of_cons in Hk2 as [->|Hk2].
      * apply list_elem_of_fmap in Hk1 as (x & Hx & Hin). rewrite Forall_forall in Hl1.
        apply Hl1 in Hin. simpl in Hx. lia.
      * eapply Hdisj; [done|]. by right.
    + apply NoDup_cons. split; [|done].
      intros (x & Hx & Hin)%list_elem_of_fmap. rewrite Forall_forall in Hl2.
      apply Hl2 in Hin. simpl in Hx. lia.
  - apply Forall_app. split; [eapply Forall_impl; [done|simpl; lia]|].
    apply Forall_cons. split; [simpl; lia|]. eapply Forall_impl; [done|simpl; lia].
Qed.

Lemma step_well_formed E it p p1 : well_formed p -> step E it p p1 -> well_formed p1.
Proof.
  intros Hwf Hstep. destruct Hstep.
  - by apply well_formed_app.
  - by eapply well_formed_replace.
  - done.
Qed.

Lemma step_grows E it p p1 : well_formed p -> step E it p p1 -> grows E [it] p p1.
Proof.
  intros Hwf Hstep. pose proof (step_well_formed _ _ _ _ Hwf Hstep) as Hwf1.
  destruct Hstep as [Hnew|l1 c l2 Hold Hsplit Hnamed Hnone Hdiff
                    |l1 c l2 Hold Hsplit Hnamed Hnone Hsame].
  - split; simpl; try done; try lia.
    + rewrite card_names_app, filter_cons_True, filter_nil by done. f_equal.
      apply card_names_named. rewrite named_created. by apply bool_decide_eq_true.
    + intros e [He|He%list_elem_of_singleton]%elem_of_app; [by left|]. right. subst e.
      split; [done|]. exists it. split; [by left|done].
    + intros e He. left. apply elem_of_app. by left.
    + intros it' ->%list_elem_of_singleton _. exists (created (next_nid p) it).
      split; [|done]. apply elem_of_app. right. by left.
  - split; simpl; try done; try lia.
    + rewrite filter_cons_False, filter_nil, app_nil_r by (intros Hn; by apply Hn).
      rewrite Hsplit, !card_names_app. f_equal.
      change (c :: l2) with ([c] ++ l2).
      change (created (next_nid p) it :: l2) with ([created (next_nid p) it] ++ l2).
      rewrite !card_names_app. f_equal.
      rewrite (card_names_named (name it) c) by done.
      apply card_names_named. rewrite named_created. by apply bool_decide_eq_true.
    + intros e He. rewrite Hsplit.
      apply elem_of_app in He as [He|[->|He]%elem_of_cons].
      * left. set_solver.
      * right. split; [done|]. exists it. split; [by left|done].
      * left. set_solver.
    + intros e He. rewrite Hsplit in He.
      apply elem_of_app in He as [He|[->|He]%elem_of_cons].
      * left. set_solver.
      * right. exists it. split; [by left|done].
      * left. set_solver.
    + intros it' ->%list_elem_of_singleton Hnot. by destruct Hnot.
  - split; simpl; try done.
    + by rewrite filter_cons_False, filter_nil, app_nil_r by (intros Hn; by apply Hn).
    + intros e He. by left.
    + intros e He. by left.
    + intros it' ->%list_elem_of_singleton Hnot. by destruct Hnot.
Qed.

Lemma grows_nil E p : well_formed p -> grows E [] p p.
Proof.
  intros Hwf. split; try done.
  - by rewrite app_nil_r.
  - intros e He. by left.
  - intros e He. by left.
  - intros it Hin. by apply elem_of_nil in Hin.
Qed.

Lemma grows_cons E it items p p1 p' :
  grows E [it] p p1 -> grows E items p1 p' -> grows E (it :: items) p p'.
Proof.
  intros H1 H2. split.
  - apply H2.
  - pose proof (grows_next _ _ _ _ H1). pose proof (grows_next _ _ _ _ H2). lia.
  - rewrite (grows_btn _ _ _ _ H2). apply H1.
  - rewrite (grows_names _ _ _ _ H2), (grows_names _ _ _ _ H1).
    rewrite <- app_assoc. f_equal.
    change (it :: items) with ([it] ++ items). by rewrite fmap_app, filter_app.
  - intros e He. apply (grows_new _ _ _ _ H2) in He as [He|(Hge & it' & Hin & Hnode)].
    + apply (grows_new _ _ _ _ H1) in He as [He|(Hge & it' & Hin & Hnode)]; [by left|].
      right. split; [done|]. exists it'. split; [|done].
      apply list_elem_of_singleton in Hin as ->. by left.
    + right. pose proof (grows_next _ _ _ _ H1). split; [lia|].
      exists it'. split; [by right|done].
  - intros e He. apply (grows_old _ _ _ _ H1) in He as [He|(it' & Hin & Hrest)].
    + apply (grows_old _ _ _ _ H2) in He as [He|(it' & Hin & Hrest)]; [by left|].
      right. exists it'. split; [by right|done].
    + right. exists it'. split; [|done]. apply list_elem_of_singleton in Hin as ->. by left.
  - intros it' [->|Hin]%elem_of_cons Hnot.
    + destruct (grows_added _ _ _ _ H1 it) as (e & He & Hge & Hnode); [by left|done|].
      apply (grows_old _ _ _ _ H2) in He as [He|(it' & Hin & HE & Hnamed & _)].
      * by exists e.
      * destruct Hnot. destruct e as [k nd]. simpl in Hnode. subst nd.
        change {| nid := k; node := rendered it |} with (created k it) in Hnamed.
        rewrite named_created in Hnamed. apply bool_decide_eq_true in Hnamed.
        by rewrite Hnamed.
    + destruct (grows_added _ _ _ _ H2 it') as (e & He & Hge & Hnode); [done..|].
      exists e. pose proof (grows_next _ _ _ _ H1). split; [done|]. split; [lia|done].
Qed.

Lemma grows_existing E items p p' :
  grows E items p p' ->
  (forall n, n ∈ E -> n ∈ card_names (children p)) ->
  forall n, n ∈ E -> n ∈ card_names (children p').
Proof.
  intros Hg HE n Hn. rewrite (grows_names _ _ _ _ Hg). apply elem_of_app. left. by apply HE.
Qed.

Lemma add_new_cards_grows E items p :
  well_formed p ->
  (forall n, n ∈ E -> n ∈ card_names (children p)) ->
  exists p', add_new_cards E items p = Some p' /\ grows E items p p'.
Proof.
  revert p. induction items as [|it items IH]; intros p Hwf HE; simpl.
  - exists p. split; [done|]. by apply grows_nil.
  - destruct (add_or_update_step E p it Hwf HE) as (p1 & -> & Hstep).
    pose proof (step_grows _ _ _ _ Hwf Hstep) as Hg1.
    destruct (IH p1) as (p' & Hrun & Hg).
    + apply Hg1.
    + by eapply grows_existing.
    + exists p'. split; [done|]. by eapply grows_cons.
Qed.

Lemma named_functional n m e : named n e = true -> named m e = true -> n = m.
Proof. intros (cc & Hc & <-)%named_true (cc' & Hc' & <-)%named_true. congruence. Qed.

Lemma step_query_other E it p p1 n :
  step E it p p1 -> n <> name it ->
  querySelector n (children p1) = querySelector n (children p).
Proof.
  intros Hstep Hne.
  destruct Hstep as [Hnew|l1 c l2 Hold Hsplit Hnamed Hnone Hdiff|]; simpl; [| |done].
  - unfold querySelector. rewrite find_app. simpl. rewrite named_created.
    rewrite bool_decide_eq_false_2 by done. by destruct (find (named n) (children p)).
  - rewrite Hsplit. apply querySelector_swap.
    + rewrite named_created, bool_decide_eq_false_2 by done.
      destruct (named n c) eqn:Hn; [|done]. destruct Hne. by eapply named_functional.
    + right. destruct (named n c) eqn:Hn; [|done]. destruct Hne. by eapply named_functional.
Qed.

Lemma step_query_kept E it p p1 c :
  step E it p p1 ->
  querySelector (name it) (children p) = Some c -> wasValid c = has_config it ->
  querySelector (name it) (children p1) = Some c.
Proof.
  intros Hstep Hc Hvalid.
  destruct Hstep as [Hnew|l1 c0 l2 Hold Hsplit Hnamed Hnone Hdiff|]; simpl; [| |done].
  - unfold querySelector in *. by rewrite find_app, Hc.
  - rewrite Hsplit, querySelector_first in Hc by done. by simplify_eq.
Qed.

Lemma step_query_made E it p p1 :
  step E it p p1 ->
  querySelector (name it) (children p) = None \/ name it ∈ E ->
  exists c, querySelector (name it) (children p1) = Some c /\ wasValid c = has_config it.
Proof.
  intros Hstep Hcase.
  destruct Hstep as [Hnew|l1 c0 l2 Hold Hsplit Hnamed Hnone Hdiff
                    |l1 c0 l2 Hold Hsplit Hnamed Hnone Hsame]; simpl.
  - destruct Hcase as [Hnone|?]; [|done]. exists (created (next_nid p) it).
    split; [|apply wasValid_created]. unfold querySelector in *.
    rewrite find_app, Hnone. simpl. by rewrite named_created, bool_decide_eq_true_2.
  - exists (created (next_nid p) it). split; [|apply wasValid_created].
    apply querySelector_first; [|done]. by rewrite named_created, bool_decide_eq_true_2.
  - exists c0. split; [|done]. rewrite Hsplit. by apply querySelector_first.
Qed.

Lemma add_new_cards_keeps_valid E items p p' n (v : bool) :
  add_new_cards E items p = Some p' ->
  well_formed p ->
  (forall m, m ∈ E -> m ∈ card_names (children p)) ->
  (forall it, it ∈ items -> name it = n -> has_config it = v) ->
  (exists c, querySelector n (children p) = Some c /\ wasValid c = v) ->
  exists c, querySelector n (children p') = Some c /\ wasValid c = v.
Proof.
  revert p. induction items as [|it items IH]; intros p Hrun Hwf HE Hagree Hgood; simpl in Hrun.
  - by simplify_eq.
  - destruct (add_or_update_step E p it Hwf HE) as (p1 & Hp1 & Hstep).
    rewrite Hp1 in Hrun. pose proof (step_grows _ _ _ _ Hwf Hstep) as Hg1.
    apply (IH p1); try done.
    + apply Hg1.
    + by eapply grows_existing.
    + intros it' Hin. apply Hagree. by right.
    + destruct Hgood as (c & Hc & Hv). destruct (decide (n = name it)) as [->|Hne].
      * exists c. split; [|done]. eapply step_query_kept; [done..|].
        rewrite Hv. symmetry. apply Hagree; [by left|done].
      * exists c. split; [|done]. by erewrite step_query_other.
Qed.

Lemma add_new_cards_makes_valid E items p p' n (v : bool) :
  add_new_cards E items p = Some p' ->
  well_formed p ->
  (forall m, m ∈ E -> m ∈ card_names (children p)) ->
  (forall it, it ∈ items -> name it = n -> has_config it = v) ->
  n ∈ name <$> items ->
  (n ∉ E -> forall c, querySelector n (children p) = Some c -> wasValid c = v) ->
  exists c, querySelector n (children p') = Some c /\ wasValid c = v.
Proof.
  revert p. induction items as [|it items IH];
    intros p Hrun Hwf HE Hagree Hin Hweak; simpl in Hrun.
  - by apply elem_of_nil in Hin.
  - destruct (add_or_update_step E p it Hwf HE) as (p1 & Hp1 & Hstep).
    rewrite Hp1 in Hrun. pose proof (step_grows _ _ _ _ Hwf Hstep) as Hg1.
    assert (well_formed p1) as Hwf1 by apply Hg1.
    assert (forall m, m ∈ E -> m ∈ card_names (children p1)) as HE1
      by (by eapply grows_existing).
    assert (forall it', it' ∈ items -> name it' = n -> has_config it' = v) as Hagree'.
    { intros it' Hin'. apply Hagree. by right. }
    destruct (decide (n = name it)) as [->|Hne].
    + assert (has_config it = v) as Hv by (apply Hagree; [by left|done]).
      eapply add_new_cards_keeps_valid; try done. rewrite <- Hv.
      destruct (querySelector (name it) (children p)) as [c|] eqn:Hc.
      * destruct (decide (name it ∈ E)) as [HinE|HnotE].
        -- eapply step_query_made; [done|by right].
        -- exists c. split; [|rewrite Hv; by apply Hweak].
           eapply step_query_kept; [done..|]. rewrite Hv. by apply Hweak.
      * eapply step_query_made; [done|by left].
    + apply (IH p1); try done.
      * rewrite fmap_cons in Hin. apply elem_of_cons in Hin as [?|?]; [done|done].
      * intros HnE c. erewrite step_query_other by done. by apply Hweak.
Qed.

Lemma NoDup_nid_filter (P : Element -> Prop) `{!forall e, Decision (P e)} l :
  NoDup (nid <$> l) -> NoDup (nid <$> filter P l).
Proof.
  induction l as [|a l IH]; [done|]. rewrite fmap_cons, NoDup_cons. intros [Ha Hnd].
  rewrite filter_cons. destruct (decide (P a)); [|by apply IH].
  rewrite fmap_cons. apply NoDup_cons. split; [|by apply IH].
  intros (x & Hx & Hin)%list_elem_of_fmap. apply list_elem_of_filter in Hin as [_ Hin].
  apply Ha. rewrite Hx. by apply list_elem_of_fmap_2.
Qed.

Lemma remove_loading_spec l bound :
  NoDup (nid <$> l) ->
  Forall (fun e => nid e < bound) l ->
  exists k, remove_loading l = remove_node k l /\
            forall e, e ∈ l -> is_Some (card_of e) -> nid e <> k.
Proof.
  intros Hnd Hlt. unfold remove_loading.
  destruct (find is_loading l) as [ld|] eqn:Hld.
  - exists (nid ld). split; [done|]. intros e He [cc Hcard] Heq.
    apply find_elem_of in Hld as [Hin Hload].
    assert (e = ld) as -> by (by eapply nid_unique).
    unfold is_loading, card_of in *. by destruct (node ld).
  - exists bound. split.
    + unfold remove_node. symmetry. apply filter_all. intros e He.
      rewrite Forall_forall in Hlt. apply Hlt in He. lia.
    + intros e He _. rewrite Forall_forall in Hlt. apply Hlt in He. lia.
Qed.

(** Removing a node that is no card leaves the cards as they are. *)
Lemma remove_node_cards k l :
  (forall e, e ∈ l -> is_Some (card_of e) -> nid e <> k) ->
  card_names (remove_node k l) = card_names l /\
  querySelectorAll (remove_node k l) = querySelectorAll l /\
  forall n, querySelector n (remove_node k l) = querySelector n l.
Proof.
  intros Hc. unfold remove_node. split; [|split].
  - apply omap_filter. intros e He [n Hn]. apply Hc; [done|].
    destruct (card_of e); [done|discriminate].
  - unfold querySelectorAll. rewrite list_filter_filter. apply filter_ext_elem.
    intros e He. split; [by intros [? _]|]. intros Hcard. split; [done|by apply Hc].
  - intros n. apply find_filter. intros e He (cc & Hcc & _)%named_true. apply Hc; [done|].
    by rewrite Hcc.
Qed.

Lemma keep_card N e (cc : Card) : card_of e = Some cc -> keep N e <-> data_name cc ∈ N.
Proof. intros Hcc. unfold keep. by rewrite Hcc. Qed.

Lemma keep_plain N e : card_of e = None -> keep N e.
Proof. intros Hcc. unfold keep. by rewrite Hcc. Qed.

Lemma remove_if_deleted_filter N l c :
  (forall e, e ∈ l -> nid e = nid c -> e = c) ->
  remove_if_deleted N l c = filter (fun e => ~ (e = c /\ ~ keep N c)) l.
Proof.
  intros Huniq. unfold remove_if_deleted.
  destruct (card_of c) as [cc|] eqn:Hcc.
  - destruct (decide (data_name cc ∉ N)) as [Hout|Hin].
    + unfold remove_node. apply filter_ext_elem. intros e He. split.
      * intros Hne [-> _]. done.
      * intros Hnot Heq. apply Hnot. split; [by apply Huniq|].
        by rewrite (keep_card N c cc).
    + symmetry. apply filter_all. intros e He [_ Hout]. apply Hout.
      apply (keep_card N c cc); [done|]. by apply dec_stable.
  - symmetry. apply filter_all. intros e He [_ Hout]. by apply Hout, keep_plain.
Qed.

Lemma remove_deleted_cards_filter N cards l :
  (forall c e, c ∈ cards -> e ∈ l -> nid e = nid c -> e = c) ->
  remove_deleted_cards N cards l = filter (fun e => ~ (e ∈ cards /\ ~ keep N e)) l.
Proof.
  revert l. induction cards as [|c cards IH]; intros l Huniq.
  - simpl. symmetry. apply filter_all. intros e He [Hin _]. by apply elem_of_nil in Hin.
  - unfold remove_deleted_cards in *. simpl.
    rewrite remove_if_deleted_filter by (intros e He; apply Huniq; [by left|done]).
    rewrite IH.
    + rewrite list_filter_filter. apply list_filter_iff. intros e.
      rewrite elem_of_cons. split.
      * intros [H1 H2] [[->|Hin] Hk]; [by apply H2|by apply H1].
      * intros Hnot. split.
        -- intros [Hin Hk]. apply Hnot. split; [by right|done].
        -- intros [-> Hk]. apply Hnot. split; [by left|done].
    + intros c' e Hc' [_ He]%list_elem_of_filter. apply Huniq; [by right|done].
Qed.

Lemma card_names_keep N l :
  card_names (filter (keep N) l) = filter (fun n => n ∈ N) (card_names l).
Proof.
  induction l as [|e l IH]; [done|]. rewrite filter_cons.
  change (e :: l) with ([e] ++ l). rewrite card_names_app, filter_app, <- IH.
  destruct (card_of e) as [cc|] eqn:Hcc.
  - assert (card_names [e] = [data_name cc]) as Hone.
    { apply card_names_named, named_true. by exists cc. }
    rewrite Hone, filter_cons, filter_nil.
    destruct (decide (keep N e)) as [Hk|Hk].
    + rewrite decide_True by (by apply (keep_card N e cc)).
      change (e :: filter (keep N) l) with ([e] ++ filter (keep N) l).
      by rewrite card_names_app, Hone.
    + by rewrite decide_False by (by rewrite <- (keep_card N e cc)).
  - assert (card_names [e] = []) as Hone.
    { unfold card_names. simpl. by rewrite Hcc. }
    rewrite Hone, filter_nil. rewrite decide_True by (by apply keep_plain).
    change (e :: filter (keep N) l) with ([e] ++ filter (keep N) l).
    by rewrite card_names_app, Hone.
Qed.

Lemma card_names_querySelectorAll l : card_names (querySelectorAll l) = card_names l.
Proof.
  unfold querySelectorAll, card_names. apply omap_filter. intros e _ [n Hn].
  destruct (card_of e); [done|discriminate].
Qed.

Lemma keep_rendered items k it :
  it ∈ items -> keep (list_to_set (name <$> items)) (created k it).
Proof.
  intros Hin. unfold keep, created, rendered. simpl. rewrite createConnectorHtml_name.
  apply elem_of_list_to_set. by apply list_elem_of_fmap_2.
Qed.

(** Steps 1 to 3 of the handler, from the page [p0] left once the loading
    placeholder is gone. *)
Lemma remove_deleted_after_grows items p0 p1 :
  well_formed p0 ->
  grows (list_to_set (card_names (children p0))) items p0 p1 ->
  remove_deleted_cards (list_to_set (name <$> items))
    (querySelectorAll (children p0)) (children p1)
  = filter (keep (list_to_set (name <$> items))) (children p1).
Proof.
  intros [Hnd Hlt] Hg. rewrite remove_deleted_cards_filter.
  - apply filter_ext_elem. intros e He. split.
    + intros Hnot. destruct (decide (keep (list_to_set (name <$> items)) e)) as [|Hk]; [done|].
      destruct Hnot. split; [|done].
      apply (grows_new _ _ _ _ Hg) in He as [He|(_ & it & Hin & Hnode)].
      * apply list_elem_of_filter. split; [|done].
        destruct (card_of e) eqn:Hc; [done|]. destruct Hk. by apply keep_plain.
      * destruct Hk. destruct e as [k nd]. simpl in Hnode. subst nd.
        by apply (keep_rendered items k it).
    + intros Hk [_ Hnk]. done.
  - intros c e [_ Hc]%list_elem_of_filter He Heq.
    apply (grows_new _ _ _ _ Hg) in He as [He|(Hge & _)].
    + by eapply nid_unique.
    + rewrite Forall_forall in Hlt. apply Hlt in Hc. lia.
Qed.

Lemma filter_in_of_not_in (E N : gset string) (names : list string) :
  (forall n, n ∈ names -> n ∈ N) ->
  filter (fun n => n ∈ N) (filter (fun n => n ∉ E) names) = filter (fun n => n ∉ E) names.
Proof.
  intros Hall. apply filter_all. intros n [_ Hn]%list_elem_of_filter. by apply Hall.
Qed.

Lemma handler_reconciles items p :
  well_formed p ->
  exists p', on_known_connectors items p = Some p' /\ reconciled items p p'.
Proof.
  intros Hwf. pose proof Hwf as [Hnd Hlt].
  destruct (remove_loading_spec (children p) (next_nid p) Hnd Hlt) as (k & Hrl & Hk).
  destruct (remove_node_cards k (children p) Hk) as (Hnames0 & Hall0 & Hquery0).
  set (N := list_to_set (name <$> items) : gset string).
  set (E := list_to_set (card_names (children p)) : gset string).
  set (p0 := {| btn_refresh := stop_spinner <$> btn_refresh p;
                children := remove_loading (children p);
                next_nid := next_nid p |}).
  assert (well_formed p0) as Hwf0.
  { split; simpl; rewrite Hrl.
    - by apply NoDup_nid_filter.
    - apply Forall_forall. intros e [_ He]%list_elem_of_filter.
      rewrite Forall_forall in Hlt. by apply Hlt. }
  assert (card_names (children p0) = card_names (children p)) as Hn0.
  { simpl. by rewrite Hrl. }
  assert (forall n, n ∈ E -> n ∈ card_names (children p0)) as HE.
  { intros n Hn. rewrite Hn0. by apply elem_of_list_to_set in Hn. }
  destruct (add_new_cards_grows E items p0 Hwf0 HE) as (p1 & Hrun & Hg).
  pose proof (remove_deleted_after_grows items p0 p1 Hwf0) as Hstep3.
  rewrite Hn0 in Hstep3. specialize (Hstep3 Hg). fold N in Hstep3.
  assert (on_known_connectors items p =
          if decide (length items = 0 /\ length (filter (keep N) (children p1)) = 0)
          then Some {| btn_refresh := btn_refresh p1;
                       children := [{| nid := next_nid p1; node := emptyState |}];
                       next_nid := S (next_nid p1) |}
          else Some {| btn_refresh := btn_refresh p1;
                       children := filter (keep N) (children p1);
                       next_nid := next_nid p1 |}) as Hdef.
  { unfold on_known_connectors. cbv zeta. fold p0.
    rewrite card_names_querySelectorAll, Hn0. fold E. rewrite Hrun. fold N.
    by rewrite Hstep3. }
  assert (forall e, e ∈ children p0 -> e ∈ children p) as Hsub0.
  { intros e. simpl. rewrite Hrl. by intros [_ He]%list_elem_of_filter. }
  assert (forall e, e ∈ children p -> is_Some (card_of e) -> e ∈ children p0) as Hsup0.
  { intros e He Hc. simpl. rewrite Hrl. apply list_elem_of_filter. split; [|done].
    by apply Hk. }
  assert (forall n, n ∈ name <$> items -> n ∈ N) as HN.
  { intros n Hn. by apply elem_of_list_to_set. }
  assert (card_names (filter (keep N) (children p1)) =
          filter (fun n => n ∈ N) (card_names (children p)) ++
          filter (fun n => n ∉ E) (name <$> items)) as Hnames.
  { rewrite card_names_keep, (grows_names _ _ _ _ Hg), Hn0, filter_app.
    by rewrite filter_in_of_not_in. }
  exists (if decide (length items = 0 /\ length (filter (keep N) (children p1)) = 0)
          then {| btn_refresh := btn_refresh p1;
                  children := [{| nid := next_nid p1; node := emptyState |}];
                  next_nid := S (next_nid p1) |}
          else {| btn_refresh := btn_refresh p1;
                  children := filter (keep N) (children p1);
                  next_nid := next_nid p1 |}).
  split; [rewrite Hdef; by destruct (decide _)|].
  pose proof (grows_next _ _ _ _ Hg) as Hnext. simpl in Hnext.
  destruct (decide _) as [[Hitems Hempty]|Hnot].
  - apply length_zero_iff_nil in Hitems, Hempty.
    split; simpl.
    + split; simpl; [apply NoDup_singleton|]. apply Forall_singleton. simpl. lia.
    + lia.
    + etrans; [|exact Hnames]. by rewrite Hempty.
    + intros e ->%list_elem_of_singleton [cc Hcc]. discriminate.
    + intros e He Hc. right. left. intros Hkeep. destruct Hc as [cc Hcc].
      apply (keep_card _ _ _ Hcc) in Hkeep. rewrite Hitems in Hkeep.
      by apply elem_of_list_to_set, elem_of_nil in Hkeep.
    + intros it Hin. rewrite Hitems in Hin. by apply elem_of_nil in Hin.
    + intros e ->%list_elem_of_singleton. by apply keep_plain.
    + intros n v _ Hin. rewrite Hitems in Hin. by apply elem_of_nil in Hin.
  - split; simpl.
    + destruct (grows_wf _ _ _ _ Hg) as [Hnd1 Hlt1]. split; simpl.
      * by apply NoDup_nid_filter.
      * apply Forall_forall. intros e [_ He]%list_elem_of_filter.
        rewrite Forall_forall in Hlt1. by apply Hlt1.
    + lia.
    + by fold N E.
    + intros e [_ He]%list_elem_of_filter _.
      apply (grows_new _ _ _ _ Hg) in He as [He|He]; [left; by apply Hsub0|by right].
    + intros e He Hc. apply Hsup0 in He; [|done].
      apply (grows_old _ _ _ _ Hg) in He as [He|(it & Hin & _ & Hnamed & Hdiff)].
      * destruct (decide (keep N e)) as [Hkeep|Hkeep]; [|by right; left].
        left. by apply list_elem_of_filter.
      * right. right. by exists it.
    + intros it Hin Hnot'.
      destruct (grows_added _ _ _ _ Hg it Hin) as (e & He & Hge & Hnode).
      { unfold E. by rewrite elem_of_list_to_set. }
      exists e. split; [|done]. apply list_elem_of_filter. split; [|done].
      destruct e as [i nd]. simpl in Hnode. subst nd. by apply (keep_rendered items i it).
    + by intros e [Hkeep _]%list_elem_of_filter.
    + intros n v Hagree Hin.
      destruct (add_new_cards_makes_valid E items p0 p1 n v) as (c & Hc & Hv); try done.
      { intros HnE c Hc. destruct HnE. apply elem_of_list_to_set. rewrite <- Hn0.
        apply card_names_elem. exists c. by apply querySelector_elem. }
      exists c. split; [|done]. unfold querySelector in *. rewrite find_filter; [done|].
      intros e He (cc & Hcc & Hname)%named_true. apply (keep_card N e cc Hcc).
      rewrite Hname. by apply HN.
Qed.

Lemma named_unique n l x y :
  NoDup (card_names l) -> x ∈ l -> y ∈ l ->
  named n x = true -> named n y = true -> x = y.
Proof.
  induction l as [|a l IH]; intros Hnd Hx Hy Hnx Hny.
  - by apply elem_of_nil in Hx.
  - change (a :: l) with ([a] ++ l) in Hnd. rewrite card_names_app in Hnd.
    apply NoDup_app in Hnd as (_ & Hdisj & Hnd).
    assert (forall z, z ∈ l -> named n z = true -> named n a = true -> False) as Hclash.
    { intros z Hz Hnz Hna. apply (Hdisj n).
      - rewrite (card_names_named n a Hna). by left.
      - apply card_names_elem. by exists z. }
    apply elem_of_cons in Hx as [->|Hx]; apply elem_of_cons in Hy as [->|Hy].
    + done.
    + by destruct (Hclash y).
    + by destruct (Hclash x).
    + by apply IH.
Qed.

Lemma reconciled_names items p p' n :
  reconciled items p p' ->
  n ∈ card_names (children p') <-> n ∈ name <$> items.
Proof.
  intros Hr. rewrite (rec_names _ _ _ Hr), elem_of_app, !list_elem_of_filter.
  rewrite !elem_of_list_to_set. split; [by intros [[Hn _]|[_ Hn]]|]. intros Hn.
  destruct (decide (n ∈ card_names (children p))); [by left|by right].
Qed.

Lemma reconciled_NoDup items p p' :
  reconciled items p p' ->
  NoDup (card_names (children p)) -> NoDup (name <$> items) ->
  NoDup (card_names (children p')).
Proof.
  intros Hr Hndp Hndi. rewrite (rec_names _ _ _ Hr). apply NoDup_app.
  split; [by apply NoDup_filter|]. split; [|by apply NoDup_filter].
  intros n [_ Hin]%list_elem_of_filter [Hout _]%list_elem_of_filter.
  apply Hout. by apply elem_of_list_to_set.
Qed.

Lemma keep_named items it e :
  it ∈ items -> named (name it) e = true -> keep (list_to_set (name <$> items)) e.
Proof.
  intros Hin (cc & Hcc & Hname)%named_true. apply (keep_card _ _ _ Hcc).
  rewrite Hname. apply elem_of_list_to_set. by apply list_elem_of_fmap_2.
Qed.


Lemma add_new_cards_noop E items p :
  (forall it, it ∈ items ->
     name it ∈ E /\
     exists c, querySelector (name it) (children p) = Some c /\ wasValid c = has_config it) ->
  add_new_cards E items p = Some p.
Proof.
  induction items as [|it items IH]; intros Hall; simpl; [done|].
  destruct (Hall it) as (HE & c & Hc & Hv); [by left|].
  unfold add_or_update. rewrite decide_False by (intros Hn; by apply Hn).
  rewrite Hc, decide_False by (intros Hn; by apply Hn).
  apply IH. intros it' Hin. apply Hall. by right.
Qed.

Lemma remove_deleted_cards_noop N cards l :
  (forall c, c ∈ cards -> keep N c) -> remove_deleted_cards N cards l = l.
Proof.
  unfold remove_deleted_cards. revert l.
  induction cards as [|c cards IH]; intros l Hall; simpl; [done|].
  rewrite IH by (intros c' Hc'; apply Hall; by right).
  unfold remove_if_deleted. destruct (card_of c) as [cc|] eqn:Hcc; [|done].
  rewrite decide_False; [done|]. intros Hout. apply Hout.
  apply (keep_card N c cc Hcc). apply Hall. by left.
Qed.

(** A run on a page that already shows the list changes no card. *)
Lemma handler_noop items p :
  well_formed p ->
  (forall e, e ∈ children p -> keep (list_to_set (name <$> items)) e) ->
  (forall it, it ∈ items ->
     exists c, querySelector (name it) (children p) = Some c /\ wasValid c = has_config it) ->
  exists p', on_known_connectors items p = Some p' /\
             querySelectorAll (children p') = querySelectorAll (children p).
Proof.
  intros [Hnd Hlt] Hkeep Hvalid.
  destruct (remove_loading_spec (children p) (next_nid p) Hnd Hlt) as (k & Hrl & Hk).
  destruct (remove_node_cards k (children p) Hk) as (Hnames0 & Hall0 & Hquery0).
  unfold on_known_connectors. cbv zeta. simpl.
  rewrite card_names_querySelectorAll, Hrl, Hnames0.
  rewrite add_new_cards_noop.
  - simpl. rewrite remove_deleted_cards_noop.
    + destruct (decide _) as [[_ Hempty]|_]; eexists; (split; [done|]); simpl; [|done].
      apply length_zero_iff_nil in Hempty. by rewrite <- Hall0, Hempty.
    + intros c [_ Hc]%list_elem_of_filter. apply Hkeep.
      by apply list_elem_of_filter in Hc as [_ Hc].
  - intros it Hin. destruct (Hvalid it Hin) as (c & Hc & Hv). simpl. split.
    + apply elem_of_list_to_set, card_names_elem. exists c. by apply querySelector_elem.
    + exists c. by rewrite Hquery0.
Qed.


End ConnectorFacts.





(** * Further properties of the script *)

(** ** Strings *)

Section TextFacts.
Import Text.

Lemma length_app_string (s t : string) :
  String.length (s +:+ t) = String.length s + String.length t.
Proof. induction s as [|c s IH]; simpl; [done|]. by rewrite IH. Qed.

Lemma length_map_string f (s : string) : String.length (map_string f s) = String.length s.
Proof. induction s as [|c s IH]; simpl; [done|]. by rewrite IH. Qed.

Lemma length_substring_string (n m : nat) (s : string) :
  n + m <= String.length s -> String.length (String.substring n m s) = m.
Proof.
  revert n m. induction s as [|c s IH]; intros n m Hle; simpl in *.
  - destruct n, m; simpl; lia.
  - destruct n as [|n].
    + destruct m as [|m]; simpl; [done|]. rewrite IH; [done|lia].
    + apply IH. lia.
Qed.

Lemma pad2_width (n : nat) : n < 100 -> String.length (padStart0 2 (pretty n)) = 2.
Proof.
  intros Hn.
  assert (Forall (fun k => String.length (padStart0 2 (pretty k)) = 2) (seq 0 100)) as Hall
    by compute_done.
  rewrite Forall_forall in Hall. apply Hall, elem_of_seq. lia.
Qed.

End TextFacts.

(** ** One chart under [updateChart] *)

Section ChartWindow.
Import Charts.
Context {num : Type}.
Implicit Types (c : Chart num) (calls : list (@sample num)).

Lemma updateChart_dataset0_length_any now c v w :
  length (dataset0 (updateChart now c v w)) =
  if decide (20 < length (labels c)) then S (length (tail (dataset0 c)))
  else S (length (dataset0 c)).
Proof.
  unfold updateChart. destruct (decide _); simpl; rewrite length_app; simpl; unfold shift; lia.
Qed.

Lemma updates_cons call calls c :
  updates c (call :: calls) =
  updates (updateChart call.1.1 c call.1.2 call.2) calls.
Proof. by destruct call as [[now v] w]. Qed.

Lemma updates_window_from c calls :
  length (labels c) <= 21 ->
  length (dataset0 c) = length (labels c) ->
  labels (updates c calls) =
    drop (length (labels c) + length calls - 21)
         (labels c ++ ((fun s : sample => timeLabel s.1.1) <$> calls)) /\
  dataset0 (updates c calls) =
    drop (length (labels c) + length calls - 21)
         (dataset0 c ++ ((fun s : sample => s.1.2) <$> calls)).
Proof.
  revert c. induction calls as [|call calls IH]; intros c Hle Heq.
  - simpl. rewrite !app_nil_r. replace (length (labels c) + 0 - 21) with 0 by lia.
    by rewrite !drop_0.
  - rewrite updates_cons.
    pose proof (updateChart_labels_length call.1.1 c call.1.2 call.2) as Hl.
    pose proof (updateChart_dataset0_length call.1.1 c call.1.2 call.2 Heq) as Hd.
    destruct (IH (updateChart call.1.1 c call.1.2 call.2)) as [IHl IHd];
      [destruct (decide _); lia|done|].
    rewrite IHl, IHd, Hl. clear IHl IHd IH. rewrite !fmap_cons.
    unfold updateChart. simpl length. destruct (decide (20 < length (labels c))) as [Hfull|Hroom].
    + assert (length (labels c) = 21) as H21 by lia.
      destruct (labels c) as [|l0 ls] eqn:Hls; [simpl in H21; lia|].
      destruct (dataset0 c) as [|d0 ds] eqn:Hds; [simpl in Heq, H21; lia|].
      simpl labels. simpl dataset0. unfold shift. simpl tail.
      rewrite <- !app_assoc. simpl.
      simpl in H21.
      replace (length ls + S (length calls) - 20) with (S (length ls + length calls - 20))
        by lia.
      done.
    + simpl labels. simpl dataset0. rewrite <- !app_assoc. simpl.
      by replace (length (labels c) + S (length calls) - 21)
        with (length (labels c) + length calls - 20) by lia.
Qed.

(** X1: the live window.  From an empty chart, after any run of
    [updateChart] calls the chart shows the last 21 calls and nothing
    else: their time labels, oldest first, and their first values in the
    primary dataset. *)
Theorem updateChart_sliding_window calls color2 :
  labels (updates (createMqChart color2) calls) =
    drop (length calls - 21) ((fun s : sample => timeLabel s.1.1) <$> calls) /\
  dataset0 (updates (createMqChart color2) calls) =
    drop (length calls - 21) ((fun s : sample => s.1.2) <$> calls).
Proof.
  destruct (updates_window_from (createMqChart color2) calls) as [Hl Hd];
    [simpl; lia|done|].
  by rewrite Hl, Hd.
Qed.

Lemma updates_labels_length_any calls c :
  length (labels (updates c calls)) =
  Nat.max (length (labels c)) (Nat.min (length (labels c) + length calls) 21).
Proof.
  revert c. induction calls as [|call calls IH]; intros c.
  - simpl. lia.
  - rewrite updates_cons, IH, updateChart_labels_length. simpl length.
    destruct (decide _); lia.
Qed.

(** X2: the cap only stops growth.  After [k] calls a chart that held [n]
    labels holds [max n (min (n + k) 21)]: a chart with more than 21 points
    is never trimmed, it keeps its size; and the primary dataset stays as
    long as the labels when it was so before. *)
Theorem updateChart_never_trims calls c :
  length (labels (updates c calls)) =
    Nat.max (length (labels c)) (Nat.min (length (labels c) + length calls) 21) /\
  (21 <= length (labels c) -> length (labels (updates c calls)) = length (labels c)) /\
  (length (dataset0 c) = length (labels c) ->
   length (dataset0 (updates c calls)) = length (labels (updates c calls))).
Proof.
  split; [apply updates_labels_length_any|]. split.
  - intros Hbig. rewrite updates_labels_length_any. lia.
  - apply updates_dataset0_length.
Qed.

Lemma updateChart_second_length now c v v2 :
  datasets_tail c <> [] ->
  length (hd [] (datasets_tail c)) = length (labels c) ->
  datasets_tail (updateChart now c v (Some v2)) <> [] /\
  length (hd [] (datasets_tail (updateChart now c v (Some v2)))) =
  length (labels (updateChart now c v (Some v2))).
Proof.
  intros Hne Heq. unfold updateChart.
  destruct (datasets_tail c) as [|d rest] eqn:Htail; [done|]. simpl in Heq.
  destruct (decide (20 < length (labels c))) as [Hfull|Hroom]; simpl.
  - split; [discriminate|]. rewrite !length_app. unfold shift. simpl.
    destruct d, (labels c); simpl in *; lia.
  - rewrite Htail. simpl. split; [discriminate|]. rewrite !length_app. simpl. lia.
Qed.

(** X3: the second series keeps pace.  On a chart with a second dataset as
    long as the labels, when every call passes a second value, the second
    dataset is still as long as the labels after any run of calls. *)
Theorem updateChart_second_series calls c :
  datasets_tail c <> [] ->
  length (hd [] (datasets_tail c)) = length (labels c) ->
  Forall (fun s : sample => is_Some s.2) calls ->
  datasets_tail (updates c calls) <> [] /\
  length (hd [] (datasets_tail (updates c calls))) = length (labels (updates c calls)).
Proof.
  revert c. induction calls as [|call calls IH]; intros c Hne Heq Hall; [done|].
  apply Forall_cons in Hall as [[v2 Hv2] Hall]. rewrite updates_cons, Hv2.
  destruct (updateChart_second_length call.1.1 c call.1.2 v2 Hne Heq) as [Hne' Heq'].
  by apply IH.
Qed.

(** X4: for a clock reading within the day, the time label is eight
    characters wide ([HH:MM:SS]). *)
Theorem timeLabel_width (now : Date) :
  getHours now < 24 -> getMinutes now < 60 -> getSeconds now < 60 ->
  String.length (timeLabel now) = 8.
Proof.
  intros Hh Hm Hs. unfold timeLabel. rewrite !length_app_string.
  rewrite !pad2_width by lia. done.
Qed.

End ChartWindow.

(** ** Charts sharing a labels array *)

Section LiveFacts.
Import Charts Live.
Context {num : Type} `{!Number num} (falsy : num -> bool).
Implicit Types (b : Board num) (c : ChartRef num) (t : Tick num).

(** What one [updateChart] does to the lengths: [grow n] labels after [n],
    [refill n d] points after [d] on a chart with [n] labels. *)
Lemma updateChartRef_lengths now c v w (arr : gmap nat (list string)) :
  let n := length (arr !!! labels_ref c) in
  length ((updateChartRef now c v w arr).1 !!! labels_ref c) =
    (if decide (20 < n) then n else S n) /\
  length (data0 (updateChartRef now c v w arr).2) =
    (if decide (20 < n) then S (length (data0 c) - 1) else S (length (data0 c))) /\
  labels_ref (updateChartRef now c v w arr).2 = labels_ref c /\
  (forall r, r <> labels_ref c -> (updateChartRef now c v w arr).1 !!! r = arr !!! r).
Proof.
  intros n. unfold updateChartRef. cbv zeta. cbn [fst snd data0 labels_ref].
  rewrite lookup_total_insert_eq.
  rewrite updateChart_labels_length, updateChart_dataset0_length_any.
  cbn [view labels dataset0]. fold n.
  split; [done|]. split; [|split; [done|]].
  - destruct (decide _); [|done]. by destruct (data0 c); simpl; rewrite ?Nat.sub_0_r.
  - intros r Hr. by rewrite lookup_total_insert_ne.
Qed.

(** The lengths after one tick on a board whose charts share their
    labels. *)
Lemma liveTick_shared_lengths t b r :
  sharesLabels r b ->
  let grow n := if decide (20 < n) then n else S n in
  let refill n d := if decide (20 < n) then S (d - 1) else S d in
  let n := length (arrays b !!! r) in
  sharesLabels r (liveTick t b) /\
  length (arrays (liveTick t b) !!! r) = grow (grow (grow n)) /\
  length (data0 (chartQueued (liveTick t b))) = refill n (length (data0 (chartQueued b))) /\
  length (data0 (chartTotal (liveTick t b))) =
    refill (grow n) (length (data0 (chartTotal b))) /\
  length (data0 (chartRate (liveTick t b))) =
    refill (grow (grow n)) (length (data0 (chartRate b))).
Proof.
  intros Hshared grow refill n.
  unfold sharesLabels, historyCharts, queueCharts in *. simpl in Hshared.
  rewrite !Forall_cons in Hshared.
  destruct Hshared as (Hc & Hr & Hd & Hq & Ht & Hrate & _).
  unfold liveTick.
  destruct (updateChartRef (at1 t) (chartQueued b) (ready t) None (arrays b))
    as [arr1 q] eqn:E1.
  destruct (updateChartRef (at2 t) (chartTotal b) (total t) None arr1) as [arr2 tq] eqn:E2.
  destruct (updateChartRef (at3 t) (chartRate b) (published t) (Some (delivered t)) arr2)
    as [arr3 rr] eqn:E3.
  pose proof (updateChartRef_lengths (at1 t) (chartQueued b) (ready t) None (arrays b)) as H1.
  pose proof (updateChartRef_lengths (at2 t) (chartTotal b) (total t) None arr1) as H2.
  pose proof (updateChartRef_lengths (at3 t) (chartRate b) (published t)
                (Some (delivered t)) arr2) as H3.
  rewrite E1 in H1. rewrite E2 in H2. rewrite E3 in H3. simpl in H1, H2, H3.
  rewrite Hq in H1. rewrite Ht in H2. rewrite Hrate in H3.
  destruct H1 as (L1 & D1 & R1 & _), H2 as (L2 & D2 & R2 & _), H3 as (L3 & D3 & R3 & _).
  fold n in L1, D1. rewrite L1 in L2, D2. rewrite L2 in L3, D3. simpl.
  split.
  - repeat (apply Forall_cons; split; [congruence|]). by apply Forall_nil.
  - done.
Qed.

(** X5: a history reply lines the charts up.  After the callback of
    [loadHistory], all six charts refer to one and the same labels array,
    holding one [HH:MM] label per history point, and every chart's primary
    dataset has one value per point; so has the second dataset of the rate
    chart.  A reply without [data] empties the charts. *)
Theorem loadHistory_aligns (d_data : option (list (HistoryPoint num))) b :
  let b' := loadHistory_settled falsy d_data b in
  let points := default [] d_data in
  sharesLabels (next_ref b) b' /\
  Forall (fun c => labelsOf b' c = histLabel <$> points /\
                   length (data0 c) = length points)
         (historyCharts b' ++ queueCharts b') /\
  (data_tail (chartRate b) <> [] ->
   length (hd [] (data_tail (chartRate b'))) = length points).
Proof.
  intros b' points. subst b'. unfold loadHistory_settled. fold points. split; [|split].
  - unfold sharesLabels. simpl. repeat (apply Forall_cons; split); try done.
  - unfold labelsOf. simpl.
    repeat (apply Forall_cons; split; [simpl; by rewrite lookup_total_insert_eq, length_fmap|]).
    by apply Forall_nil.
  - simpl. destruct (data_tail (chartRate b)); [done|]. intros _. simpl.
    by rewrite length_fmap.
Qed.

(** X6: after a history reply the labels outrun the data.  On a board whose
    charts share one labels array of at most 18 labels, a tick adds three
    labels to it, which all six charts show, the history charts included,
    and one point to each queue dataset; with 21 labels or more and
    datasets that are not empty, a tick changes no length at all. *)
Theorem liveTick_three_labels_one_point t b r :
  sharesLabels r b ->
  let n := length (arrays b !!! r) in
  Forall (fun c => labels_ref c = r) (historyCharts (liveTick t b) ++ queueCharts (liveTick t b)) /\
  (n <= 18 ->
     length (arrays (liveTick t b) !!! r) = n + 3 /\
     Forall2 (fun c' c => length (data0 c') = S (length (data0 c)))
             (queueCharts (liveTick t b)) (queueCharts b)) /\
  (21 <= n -> Forall (fun c => data0 c <> []) (queueCharts b) ->
     length (arrays (liveTick t b) !!! r) = n /\
     Forall2 (fun c' c => length (data0 c') = length (data0 c))
             (queueCharts (liveTick t b)) (queueCharts b)).
Proof.
  intros Hshared n.
  destruct (liveTick_shared_lengths t b r Hshared) as (Hs & HL & Hq & Ht & Hr).
  unfold n in *. clear n. split; [exact Hs|]. split.
  - intros Hn. split.
    + rewrite HL. repeat case_decide; lia.
    + unfold queueCharts. repeat (apply Forall2_cons; split); [| | |by apply Forall2_nil].
      * rewrite Hq. repeat case_decide; lia.
      * rewrite Ht. repeat case_decide; lia.
      * rewrite Hr. repeat case_decide; lia.
  - intros Hn Hne. unfold queueCharts in *. rewrite !Forall_cons in Hne.
    destruct Hne as (Hq0 & Ht0 & Hr0 & _).
    assert (forall l : list num, l <> [] -> 0 < length l) as Hpos
      by (intros [|? ?] ?; simpl; [done|lia]).
    apply Hpos in Hq0, Ht0, Hr0. split.
    + rewrite HL. repeat case_decide; lia.
    + repeat (apply Forall2_cons; split); [| | |by apply Forall2_nil].
      * rewrite Hq. repeat case_decide; lia.
      * rewrite Ht. repeat case_decide; lia.
      * rewrite Hr. repeat case_decide; lia.
Qed.

Lemma liveTicks_shared_counts (ts : list (Tick num)) b r k :
  sharesLabels r b ->
  length (arrays b !!! r) = Nat.min (3 * k) 21 ->
  Forall (fun c => length (data0 c) = Nat.min k 7) (queueCharts b) ->
  sharesLabels r (liveTicks ts b) /\
  length (arrays (liveTicks ts b) !!! r) = Nat.min (3 * (k + length ts)) 21 /\
  Forall (fun c => length (data0 c) = Nat.min (k + length ts) 7) (queueCharts (liveTicks ts b)).
Proof.
  revert b k. induction ts as [|t ts IH]; intros b k Hshared HL Hd.
  - simpl. by rewrite Nat.add_0_r.
  - unfold liveTicks in *. simpl.
    destruct (liveTick_shared_lengths t b r Hshared) as (Hs & HL' & Hq & Ht & Hr).
    unfold queueCharts in Hd. rewrite !Forall_cons in Hd. destruct Hd as (Dq & Dt & Dr & _).
    rewrite HL in HL', Hq, Ht, Hr. rewrite Dq in Hq. rewrite Dt in Ht. rewrite Dr in Hr.
    replace (k + S (length ts)) with (S k + length ts) by lia.
    apply IH; [done| |].
    + rewrite HL'. repeat case_decide; lia.
    + unfold queueCharts. repeat (apply Forall_cons; split); [| | |by apply Forall_nil].
      * rewrite Hq. repeat case_decide; lia.
      * rewrite Ht. repeat case_decide; lia.
      * rewrite Hr. repeat case_decide; lia.
Qed.

Lemma loadHistory_settled_shared (d_data : option (list (HistoryPoint num))) b :
  let b' := loadHistory_settled falsy d_data b in
  sharesLabels (next_ref b) b' /\
  arrays b' !!! next_ref b = histLabel <$> default [] d_data /\
  Forall (fun c => length (data0 c) = length (default [] d_data)) (queueCharts b').
Proof.
  intros b'. subst b'. unfold loadHistory_settled. split; [|split].
  - unfold sharesLabels. simpl. repeat (apply Forall_cons; split); try done.
  - simpl. by rewrite lookup_total_insert_eq.
  - unfold queueCharts. simpl.
    repeat (apply Forall_cons; split; [simpl; by rewrite length_fmap|]).
    by apply Forall_nil.
Qed.

(** X7: the live window after an empty history.  When the history reply
    carries no point, after [k] ticks the shared labels array holds
    [min (3 k) 21] labels while each queue dataset holds [min k 7] points:
    the live charts then never show more than seven points. *)
Theorem liveTicks_after_empty_history (ts : list (Tick num)) (d_data : option (list (HistoryPoint num))) b :
  default [] d_data = [] ->
  let b' := liveTicks ts (loadHistory_settled falsy d_data b) in
  Forall (fun c => length (labelsOf b' c) = Nat.min (3 * length ts) 21)
         (historyCharts b' ++ queueCharts b') /\
  Forall (fun c => length (data0 c) = Nat.min (length ts) 7) (queueCharts b').
Proof.
  intros Hempty b'.
  destruct (loadHistory_settled_shared d_data b) as (Hshared & Hlab & Hdata).
  rewrite Hempty in Hlab, Hdata.
  destruct (liveTicks_shared_counts ts (loadHistory_settled falsy d_data b)
              (next_ref b) 0) as (Hs & HL & Hd); [done|by rewrite Hlab|done|].
  split; [|exact Hd]. subst b'. unfold sharesLabels in Hs.
  eapply Forall_impl; [exact Hs|]. intros c Hc. unfold labelsOf. by rewrite Hc, HL.
Qed.

Lemma updateChartRef_view now c v w (arr : gmap nat (list string)) :
  view (updateChartRef now c v w arr).1 (updateChartRef now c v w arr).2 =
  updateChart now (view arr c) v w.
Proof.
  unfold updateChartRef, view. cbn [fst snd labels_ref data0 data_tail].
  rewrite lookup_total_insert_eq. by destruct (updateChart _ _ _ _).
Qed.

Lemma updateChartRef_frame now c v w (arr : gmap nat (list string)) c' :
  labels_ref c' <> labels_ref c ->
  view (updateChartRef now c v w arr).1 c' = view arr c'.
Proof.
  intros Hne. unfold updateChartRef, view. cbn [fst snd].
  by rewrite lookup_total_insert_ne.
Qed.

(** X8: before any history reply the charts are independent.  On a board
    whose three queue charts have labels arrays of their own, a tick acts on
    each of them as [updateChart] on a chart alone, and leaves the labels
    of every other chart as they were. *)
Theorem liveTick_independent t b :
  labels_ref (chartQueued b) <> labels_ref (chartTotal b) ->
  labels_ref (chartQueued b) <> labels_ref (chartRate b) ->
  labels_ref (chartTotal b) <> labels_ref (chartRate b) ->
  let b' := liveTick t b in
  view (arrays b') (chartQueued b') =
    updateChart (at1 t) (view (arrays b) (chartQueued b)) (ready t) None /\
  view (arrays b') (chartTotal b') =
    updateChart (at2 t) (view (arrays b) (chartTotal b)) (total t) None /\
  view (arrays b') (chartRate b') =
    updateChart (at3 t) (view (arrays b) (chartRate b)) (published t) (Some (delivered t)) /\
  (forall c, labels_ref c ∉ labels_ref <$> queueCharts b -> labelsOf b' c = labelsOf b c).
Proof.
  intros Hqt Hqr Htr b'. subst b'. unfold liveTick.
  pose proof (updateChartRef_view (at1 t) (chartQueued b) (ready t) None (arrays b)) as V1.
  pose proof (updateChartRef_frame (at1 t) (chartQueued b) (ready t) None (arrays b)) as F1.
  destruct (updateChartRef (at1 t) (chartQueued b) (ready t) None (arrays b))
    as [arr1 q] eqn:E1.
  pose proof (updateChartRef_view (at2 t) (chartTotal b) (total t) None arr1) as V2.
  pose proof (updateChartRef_frame (at2 t) (chartTotal b) (total t) None arr1) as F2.
  destruct (updateChartRef (at2 t) (chartTotal b) (total t) None arr1) as [arr2 tq] eqn:E2.
  pose proof (updateChartRef_view (at3 t) (chartRate b) (published t)
                (Some (delivered t)) arr2) as V3.
  pose proof (updateChartRef_frame (at3 t) (chartRate b) (published t)
                (Some (delivered t)) arr2) as F3.
  destruct (updateChartRef (at3 t) (chartRate b) (published t) (Some (delivered t)) arr2)
    as [arr3 rr] eqn:E3.
  assert (labels_ref q = labels_ref (chartQueued b)) as Rq by (by inversion E1).
  assert (labels_ref tq = labels_ref (chartTotal b)) as Rt by (by inversion E2).
  simpl in *. repeat split.
  - rewrite F3, F2, V1 by congruence. done.
  - rewrite F3, V2 by congruence. by rewrite (F1 (chartTotal b)) by congruence.
  - rewrite V3. rewrite (F2 (chartRate b)), (F1 (chartRate b)) by congruence. done.
  - intros c Hc. unfold queueCharts in Hc. simpl in Hc.
    rewrite !not_elem_of_cons in Hc. destruct Hc as (H1 & H2 & H3 & _).
    unfold labelsOf. simpl.
    specialize (F3 c H3). specialize (F2 c H2). specialize (F1 c H1).
    unfold view in F1, F2, F3. congruence.
Qed.

End LiveFacts.

(** ** Status badges under [status_update] *)

Section BadgeFrame.
Import Badges.
Implicit Types (doc : gmap string Badge) (entries : list (string * jsval)).

Lemma setBadge_is_Some doc entry i :
  is_Some (setBadge doc entry !! i) <-> is_Some (doc !! i).
Proof.
  destruct entry as [key status]. unfold setBadge.
  destruct (doc !! badgeId key) as [b|] eqn:Hb; [|done].
  destruct (decide (i = badgeId key)) as [->|Hne].
  - rewrite Hb. destruct (strict_eq_str status "running"); rewrite lookup_insert_eq;
      split; by eexists.
  - destruct (strict_eq_str status "running"); by rewrite lookup_insert_ne.
Qed.

Lemma setBadge_elsewhere doc key status i :
  i <> badgeId key -> setBadge doc (key, status) !! i = doc !! i.
Proof.
  intros Hne. unfold setBadge. destruct (doc !! badgeId key); [|done].
  destruct (strict_eq_str status "running"); by rewrite lookup_insert_ne.
Qed.

(** X9: [status_update] only rewrites badges that exist and are named.  It
    creates no badge and deletes none, a key without a badge element is
    passed over, and a badge whose key is not in the message is left
    exactly as it was. *)
Theorem status_update_frame entries doc :
  (forall i, is_Some (on_status_update entries doc !! i) <-> is_Some (doc !! i)) /\
  (forall i, i ∉ badgeId <$> entries.*1 -> on_status_update entries doc !! i = doc !! i).
Proof.
  revert doc. induction entries as [|[key status] entries IH]; intros doc; [done|].
  rewrite on_status_update_cons. destruct (IH (setBadge doc (key, status))) as [IH1 IH2].
  split.
  - intros i. by rewrite IH1, setBadge_is_Some.
  - intros i Hi. rewrite !fmap_cons, not_elem_of_cons in Hi. destruct Hi as [Hne Hi].
    rewrite IH2 by done. by apply setBadge_elsewhere.
Qed.

(** The badge element [i] after the message, from what it was before. *)
Lemma on_status_update_lookup entries doc i :
  on_status_update entries doc !! i =
  (fun b => foldl (fun b (entry : string * jsval) =>
                     if decide (i = badgeId entry.1) then shownFor entry.2 else b)
                  b entries) <$> doc !! i.
Proof.
  revert doc. induction entries as [|[key status] entries IH]; intros doc.
  - simpl. by destruct (doc !! i).
  - rewrite on_status_update_cons, IH.
    destruct (decide (i = badgeId key)) as [->|Hne].
    + destruct (doc !! badgeId key) as [b|] eqn:Hb.
      * rewrite (setBadge_same doc key status b Hb). simpl. by rewrite decide_True.
      * unfold setBadge. by rewrite Hb, Hb.
    + rewrite setBadge_elsewhere by done. destruct (doc !! i); simpl; [|done].
      by rewrite decide_False.
Qed.

Lemma last_entry_wins (i : string) entries (b b' : Badge) :
  let pick := foldl (fun b (entry : string * jsval) =>
                       if decide (i = badgeId entry.1) then shownFor entry.2 else b) in
  pick b entries = pick b' entries \/ (pick b entries = b /\ pick b' entries = b').
Proof.
  intros pick. subst pick. revert b b'.
  induction entries as [|[key status] entries IH]; intros b b'; simpl; [by right|].
  destruct (decide (i = badgeId key)) as [->|Hne]; [by left|apply IH].
Qed.

(** X10: [status_update] is idempotent: delivering the same message a
    second time changes nothing, whatever the message and the page. *)
Theorem status_update_idempotent entries doc :
  on_status_update entries (on_status_update entries doc) = on_status_update entries doc.
Proof.
  apply map_eq. intros i. rewrite (on_status_update_lookup entries (on_status_update _ _)).
  rewrite on_status_update_lookup. destruct (doc !! i) as [b|]; simpl; [|done].
  f_equal.
  set (pick := foldl (fun b (entry : string * jsval) =>
                        if decide (i = badgeId entry.1) then shownFor entry.2 else b)).
  destruct (last_entry_wins i entries (pick b entries) b) as [Heq|[Heq _]]; done.
Qed.

End BadgeFrame.

(** ** The terminal *)

Section ConsoleFacts.
Import Terminal Console.
Implicit Types (terminal : list Line) (events : list Event).

Lemma handle_appends terminal e :
  e <> Cleared -> exists line, handle terminal e = terminal ++ [line].
Proof.
  intros Hne. destruct e; [..|by destruct Hne]; simpl; by eexists.
Qed.

Lemma run_appends events terminal :
  Cleared ∉ events ->
  exists lines, run events terminal = terminal ++ lines /\ length lines = length events.
Proof.
  revert terminal. induction events as [|e events IH]; intros terminal Hno.
  - exists []. by rewrite app_nil_r.
  - apply not_elem_of_cons in Hno as [Hne Hno].
    destruct (handle_appends terminal e) as [line Hline]; [done|].
    destruct (IH (terminal ++ [line]) Hno) as (lines & Hrun & Hlen).
    exists (line :: lines). unfold run in *. simpl. rewrite Hline, Hrun.
    rewrite <- app_assoc. simpl. by rewrite Hlen.
Qed.

(** X11: what the terminal keeps.  Until it is cleared, every event
    appends exactly one line and leaves what is there untouched; once it is
    cleared, what came before is gone for good: the terminal then shows the
    cleared notice followed by one line per later event, whatever it showed
    before. *)
Theorem terminal_transcript events terminal :
  (Cleared ∉ events ->
   exists lines, run events terminal = terminal ++ lines /\
                 length lines = length events) /\
  (forall before after, events = before ++ Cleared :: after -> Cleared ∉ after ->
   exists lines, run events terminal = clearTerminal [] ++ lines /\
                 length lines = length after).
Proof.
  split; [apply run_appends|].
  intros before after -> Hno. unfold run. rewrite foldl_app. simpl.
  destruct (run_appends after (clearTerminal (foldl handle terminal before)) Hno)
    as (lines & Hrun & Hlen).
  exists lines. by split.
Qed.

End ConsoleFacts.

(** ** The editor session *)

Section SessionFacts.
Import Editor Session.
Implicit Types (s : State) (ops : list Op).

Lemma apply_coherent s op : coherent s -> coherent (apply s op).
Proof.
  intros [Hsave Hlock]. unfold coherent.
  destruct op as [name uid|r| |pwd| | |r| | | |clip sel]; simpl;
    unfold unlockConfig, checkPassword, saveConfig_settled, editorPaste,
      editorPaste_settled;
    repeat case_match; simpl; try done; split; congruence.
Qed.

(** X12: the buttons never disagree with the editor.  [openEditor] puts
    the page in a state where the save button shows exactly when the editor
    is writable and the lock button exactly when it is read-only, and every
    function of the editor, every reply and every timer keeps it so. *)
Theorem editor_buttons_coherent ops s :
  (forall name uid, coherent (run ops (openEditor name uid s))) /\
  (coherent s -> coherent (run ops s)).
Proof.
  assert (forall s', coherent s' -> coherent (run ops s')) as Hrun.
  { induction ops as [|op ops IH]; intros s' Hs'; [done|].
    unfold run in *. simpl. by apply IH, apply_coherent. }
  split; [|apply Hrun]. intros name uid. by apply Hrun.
Qed.

Lemma apply_stays_locked s op :
  op <> TypePassword sharedPassword ->
  readOnly (editor s) = true /\ unlock_password (password s) <> sharedPassword ->
  readOnly (editor (apply s op)) = true /\
  unlock_password (password (apply s op)) <> sharedPassword.
Proof.
  intros Hop [Hro Hpwd].
  destruct op as [name uid|r| |pwd| | |r| | | |clip sel]; simpl;
    unfold unlockConfig, checkPassword, saveConfig_settled, editorPaste,
      editorPaste_settled;
    repeat case_match; simpl; try done.
  - split; [done|]. intros ->. by apply Hop.
Qed.

(** X13: no way around the password.  From a read-only editor, as long
    as the shared password is not what the prompt holds and is never typed
    into it, the editor stays read-only through every call, reply and
    timer, in any order. *)
Theorem editor_stays_locked ops s :
  readOnly (editor s) = true ->
  unlock_password (password s) <> sharedPassword ->
  TypePassword sharedPassword ∉ ops ->
  readOnly (editor (run ops s)) = true.
Proof.
  intros Hro Hpwd Hno.
  assert (readOnly (editor (run ops s)) = true /\
          unlock_password (password (run ops s)) <> sharedPassword) as [H _]; [|done].
  revert s Hro Hpwd. induction ops as [|op ops IH]; intros s Hro Hpwd; [done|].
  apply not_elem_of_cons in Hno as [Hne Hno].
  destruct (apply_stays_locked s op) as [Hro' Hpwd']; [done..|].
  unfold run in *. simpl. by apply IH.
Qed.


End SessionFacts.

(** ** Pasting into the editor *)

Section PasteFacts.
Import Text Editor Session.
Implicit Types (s : State) (x y text : string).

Lemma substring_prefix_app x y : String.substring 0 (String.length x) (x +:+ y) = x.
Proof.
  induction x as [|c x IH]; simpl.
  - by destruct y.
  - by rewrite IH.
Qed.

Lemma substring_skip_app x y n m :
  String.substring (String.length x + n) m (x +:+ y) = String.substring n m y.
Proof. induction x as [|c x IH]; simpl; [done|apply IH]. Qed.

Lemma substring_whole x : String.substring 0 (String.length x) x = x.
Proof. induction x as [|c x IH]; simpl; [done|]. by rewrite IH. Qed.

Lemma substring_in_range (a b : nat) x :
  a <= b -> b <= String.length x -> substring a b x = String.substring a (b - a) x.
Proof.
  intros Hab Hb. unfold substring.
  rewrite (Nat.min_l a), (Nat.min_l b) by lia. by rewrite Nat.min_l, Nat.max_r by lia.
Qed.


End PasteFacts.

(** ** Connector discovery, continued *)

Section DiscoveryFacts.
Import Text Connectors Discovery.
Implicit Types (p : Page) (items : list Item) (e : Element).

Lemma every_map_string (ok : ascii -> bool) f (s : string) :
  (forall c, ok (f c) = true) -> every ok (map_string f s) = true.
Proof. intros Hok. induction s as [|c s IH]; simpl; [done|]. by rewrite Hok, IH. Qed.

Lemma map_string_fixed (ok : ascii -> bool) f (s : string) :
  (forall c, ok c = true -> f c = c) -> every ok s = true -> map_string f s = s.
Proof.
  intros Hfix. induction s as [|c s IH]; simpl; [done|].
  intros [Hc Hs]%andb_prop. by rewrite Hfix, IH.
Qed.

(** X15: the uid made from a connector name is a safe identifier: it is as
    long as the name, holds nothing but letters, digits and underscores,
    keeps every name that is already so, and making a uid from a uid
    changes nothing. *)
Theorem uid_is_safe (name : string) :
  let uid := replace_non_alnum name in
  String.length uid = String.length name /\
  every (fun c => is_alnum c || bool_decide (c = "_"%char)) uid = true /\
  (every is_alnum name = true -> uid = name) /\
  replace_non_alnum uid = uid.
Proof.
  intros uid. subst uid. unfold replace_non_alnum.
  assert (forall c, (is_alnum c || bool_decide (c = "_"%char)) = true ->
            (if is_upper c || is_lower c || is_digit c then c else "_"%char) = c) as Hfix.
  { intros c Hc. fold (is_alnum c). destruct (is_alnum c); [done|].
    simpl in Hc. by apply bool_decide_eq_true in Hc. }
  assert (every (fun c => is_alnum c || bool_decide (c = "_"%char))
            (map_string (fun c => if is_upper c || is_lower c || is_digit c
                                  then c else "_"%char) name) = true) as Hsafe.
  { apply every_map_string. intros c. fold (is_alnum c).
    destruct (is_alnum c) eqn:Hc; [by rewrite Hc|done]. }
  split; [apply length_map_string|]. split; [exact Hsafe|]. split.
  - apply map_string_fixed. intros c Hc. apply Hfix. by rewrite Hc.
  - by apply (map_string_fixed _ _ _ Hfix).
Qed.

Lemma elem_of_classList_add (x c : string) (l : list string) :
  x ∈ classList_add c l <-> x = c \/ x ∈ l.
Proof.
  unfold classList_add. destruct (decide (c ∈ l)) as [Hin|Hout].
  - split; [by right|]. by intros [->|?].
  - rewrite elem_of_app, list_elem_of_singleton. tauto.
Qed.

Lemma elem_of_classList_remove (x c : string) (l : list string) :
  x ∈ classList_remove c l <-> x <> c /\ x ∈ l.
Proof. unfold classList_remove. by rewrite list_elem_of_filter. Qed.

Lemma add_new_cards_button E items p p' :
  add_new_cards E items p = Some p' -> btn_refresh p' = btn_refresh p.
Proof.
  revert p. induction items as [|it items IH]; intros p Hrun; simpl in Hrun.
  - by simplify_eq.
  - destruct (add_or_update E p it) as [p1|] eqn:Hstep; [|done].
    rewrite (IH p1 Hrun). unfold add_or_update in Hstep.
    repeat case_match; by simplify_eq.
Qed.

Lemma handler_button items p p' :
  on_known_connectors items p = Some p' ->
  btn_refresh p' = stop_spinner <$> btn_refresh p.
Proof.
  unfold on_known_connectors. cbv zeta.
  destruct (add_new_cards _ items _) as [p1|] eqn:Hrun; [|done].
  apply add_new_cards_button in Hrun. simpl in Hrun.
  destruct (decide _); intros [= <-]; simpl; done.
Qed.

(** X16: the refresh button comes back.  [refreshConnectors] needs the
    button and fails without it; with it, the button is disabled and spins
    while the cards are left alone, and whatever list answers, the handler
    enables the button again, stops the animation and shows the clockwise
    icon instead of the repeat icon.  The [spin-animation] class that
    [refreshConnectors] adds is still there afterwards. *)
Theorem refresh_round_trip p :
  (btn_refresh p = None -> refreshConnectors p = None) /\
  (forall b, btn_refresh p = Some b ->
     exists p1 b1,
       refreshConnectors p = Some p1 /\ btn_refresh p1 = Some b1 /\
       disabled b1 = true /\ children p1 = children p /\ next_nid p1 = next_nid p /\
       forall items p2, on_known_connectors items p1 = Some p2 ->
         exists b2, btn_refresh p2 = Some b2 /\
           disabled b2 = false /\ icon_animation b2 = "" /\
           "bi-arrow-clockwise" ∈ icon_classList b2 /\
           ("bi-arrow-repeat" ∉ icon_classList b2) /\
           "spin-animation" ∈ icon_classList b2).
Proof.
  unfold refreshConnectors. split; [by intros ->|]. intros b ->.
  eexists _, _. split; [done|]. split; [done|]. repeat split.
  intros items p2 Hrun. apply handler_button in Hrun. simpl in Hrun.
  eexists. split; [exact Hrun|]. simpl. repeat split.
  - apply elem_of_classList_add. by left.
  - rewrite elem_of_classList_add, elem_of_classList_remove. intros [?|[? _]]; done.
  - rewrite elem_of_classList_add, elem_of_classList_remove. right. split; [done|].
    rewrite elem_of_classList_add. right. rewrite elem_of_classList_remove. split; [done|].
    apply elem_of_classList_add. by left.
Qed.


(** The handler from the page [p0] left once the loading placeholder is
    gone. *)
Lemma handler_unfolds items p :
  well_formed p ->
  exists p1,
    grows (list_to_set (card_names (children p))) items
      {| btn_refresh := stop_spinner <$> btn_refresh p;
         children := remove_loading (children p);
         next_nid := next_nid p |} p1 /\
    on_known_connectors items p =
      Some (if decide (length items = 0 /\
                       length (filter (keep (list_to_set (name <$> items))) (children p1)) = 0)
            then {| btn_refresh := btn_refresh p1;
                    children := [{| nid := next_nid p1; node := emptyState |}];
                    next_nid := S (next_nid p1) |}
            else {| btn_refresh := btn_refresh p1;
                    children := filter (keep (list_to_set (name <$> items))) (children p1);
                    next_nid := next_nid p1 |}).
Proof.
  intros Hwf. pose proof Hwf as [Hnd Hlt].
  destruct (remove_loading_spec (children p) (next_nid p) Hnd Hlt) as (k & Hrl & Hk).
  destruct (remove_node_cards k (children p) Hk) as (Hnames0 & _ & _).
  set (p0 := {| btn_refresh := stop_spinner <$> btn_refresh p;
                children := remove_loading (children p);
                next_nid := next_nid p |}).
  assert (well_formed p0) as Hwf0.
  { split; simpl; rewrite Hrl.
    - by apply NoDup_nid_filter.
    - apply Forall_forall. intros e [_ He]%list_elem_of_filter.
      rewrite Forall_forall in Hlt. by apply Hlt. }
  assert (card_names (children p0) = card_names (children p)) as Hn0.
  { simpl. by rewrite Hrl. }
  destruct (add_new_cards_grows (list_to_set (card_names (children p))) items p0 Hwf0)
    as (p1 & Hrun & Hg).
  { intros n Hn. rewrite Hn0. by apply elem_of_list_to_set in Hn. }
  exists p1. split; [done|].
  pose proof (remove_deleted_after_grows items p0 p1 Hwf0) as Hstep3.
  rewrite Hn0 in Hstep3. specialize (Hstep3 Hg).
  unfold on_known_connectors. cbv zeta. fold p0.
  rewrite card_names_querySelectorAll, Hn0, Hrun, Hstep3.
  by destruct (decide _).
Qed.


Lemma filter_none (P : Element -> Prop) `{!forall e, Decision (P e)} (l : list Element) :
  (forall e, e ∈ l -> ~ P e) -> filter P l = [].
Proof.
  induction l as [|a l IH]; intros Hall; [done|].
  rewrite filter_cons_False by (apply Hall; by left).
  apply IH. intros e He. apply Hall. by right.
Qed.

Local Ltac none_listed H :=
  first [by apply elem_of_list_to_set, elem_of_nil in H | by apply elem_of_empty in H].

Lemma remove_loading_well_formed p btn :
  well_formed p ->
  well_formed {| btn_refresh := btn; children := remove_loading (children p);
                 next_nid := next_nid p |}.
Proof.
  intros [Hnd Hlt].
  destruct (remove_loading_spec (children p) (next_nid p) Hnd Hlt) as (k & Hrl & _).
  split; simpl; rewrite Hrl.
  - by apply NoDup_nid_filter.
  - apply Forall_forall. intros e [_ He]%list_elem_of_filter.
    rewrite Forall_forall in Hlt. by apply Hlt.
Qed.

(** X19: an empty list.  After an empty list the container holds no card
    and is not empty; when it held nothing but cards, it shows the
    empty-state message and nothing else. *)
Theorem known_connectors_empty_list p :
  well_formed p ->
  exists p',
    on_known_connectors [] p = Some p' /\
    querySelectorAll (children p') = [] /\
    children p' <> [] /\
    (Forall (fun e => is_Some (card_of e)) (children p) ->
     children p' = [{| nid := next_nid p; node := emptyState |}]).
Proof.
  intros Hwf.
  set (p0 := {| btn_refresh := stop_spinner <$> btn_refresh p;
                children := remove_loading (children p);
                next_nid := next_nid p |}).
  assert (well_formed p0) as Hwf0 by (by apply remove_loading_well_formed).
  pose proof (remove_deleted_after_grows [] p0 p0 Hwf0 (grows_nil _ p0 Hwf0)) as Hstep3.
  assert (on_known_connectors [] p =
          Some (if decide (0 = 0 /\ length (filter (keep (list_to_set (name <$> ([] : list Item)))) (children p0)) = 0)
                then {| btn_refresh := btn_refresh p0;
                        children := [{| nid := next_nid p0; node := emptyState |}];
                        next_nid := S (next_nid p0) |}
                else {| btn_refresh := btn_refresh p0;
                        children := filter (keep (list_to_set (name <$> ([] : list Item)))) (children p0);
                        next_nid := next_nid p0 |})) as Hrun.
  { unfold on_known_connectors. cbv zeta. fold p0. cbn [add_new_cards].
    rewrite Hstep3. cbn [length]. by destruct (decide _). }
  eexists. split; [exact Hrun|].
  assert (forall e, e ∈ filter (keep (list_to_set (name <$> ([] : list Item)))) (children p0) ->
            card_of e = None) as Hplain.
  { intros e [Hkeep _]%list_elem_of_filter. destruct (card_of e) as [cc|] eqn:Hcc; [|done].
    apply (keep_card _ _ _ Hcc) in Hkeep.
    none_listed Hkeep. }
  split; [|split].
  - destruct (decide _) as [_|_]; simpl; [done|].
    unfold querySelectorAll. rewrite list_filter_filter.
    apply filter_none. intros e He [[cc Hcc] Hkeep].
    apply (keep_card _ _ _ Hcc) in Hkeep.
    none_listed Hkeep.
  - destruct (decide _) as [_|Hnot]; simpl; [done|].
    intros Hnil. apply Hnot. split; [done|]. by apply length_zero_iff_nil.
  - intros Hcards. rewrite decide_True; [done|]. split; [done|].
    rewrite filter_none; [done|]. intros e He Hkeep.
    assert (e ∈ children p) as Hin.
    { simpl in He. unfold remove_loading in He.
      destruct (find is_loading (children p)); [|done].
      by apply list_elem_of_filter in He as [_ He]. }
    rewrite Forall_forall in Hcards. destruct (Hcards e Hin) as [cc Hcc].
    apply (keep_card _ _ _ Hcc) in Hkeep.
    none_listed Hkeep.
Qed.

Lemma replies_app lists lists' p :
  replies (lists ++ lists') p = replies lists p ≫= replies lists'.
Proof.
  revert p. induction lists as [|items lists IH]; intros p; simpl; [done|].
  destruct (on_known_connectors items p); [apply IH|done].
Qed.

Lemma replies_distinct lists p :
  well_formed p -> NoDup (card_names (children p)) ->
  Forall (fun items => NoDup (name <$> items)) lists ->
  exists p', replies lists p = Some p' /\ well_formed p' /\
             NoDup (card_names (children p')).
Proof.
  revert p. induction lists as [|items lists IH]; intros p Hwf Hnd Hall; simpl.
  - by exists p.
  - apply Forall_cons in Hall as [Hitems Hall].
    destruct (handler_reconciles items p Hwf) as (p1 & -> & Hr).
    apply IH; [apply Hr| |done]. by eapply reconciled_NoDup.
Qed.


End DiscoveryFacts.

(** ** The table of running containers *)

Section ContainerFacts.
Import Containers.

Lemma rows_appended (data : list Container) (rows : list Row) :
  foldl (fun rows c => rows ++ [ContainerRow c]) rows data = rows ++ (ContainerRow <$> data).
Proof.
  revert rows. induction data as [|c data IH]; intros rows; simpl.
  - by rewrite app_nil_r.
  - rewrite IH. by rewrite <- app_assoc.
Qed.

(** X21: the table shows the last message and nothing else.  Whatever
    rows it held, after a [container_list] message the table has one row per
    container of the message, in the order of the message, or the single
    placeholder row when the message is empty; so it is never left empty,
    and a second delivery of the message changes nothing. *)
Theorem container_list_replaces_rows (data : list Container) (tbody : list Row) :
  on_container_list data tbody =
    (if decide (data = []) then [NoContainers] else ContainerRow <$> data) /\
  on_container_list data tbody <> [] /\
  on_container_list data (on_container_list data tbody) = on_container_list data tbody.
Proof.
  assert (forall rows, on_container_list data rows =
            if decide (data = []) then [NoContainers] else ContainerRow <$> data) as Heq.
  { intros rows. unfold on_container_list. destruct data as [|c data]; [done|].
    rewrite decide_False by done. rewrite decide_False by done. apply rows_appended. }
  split; [apply Heq|]. split; [|by rewrite !Heq].
  rewrite Heq. destruct data; [done|]. by rewrite decide_False.
Qed.

End ContainerFacts.

(** ** Worked examples *)

Section Examples.
Import Js Text Charts Live Badges Terminal Console Editor Session Connectors Discovery.
Import Samples Scenarios.

Lemma updateChart_never_trims_witness :
  length (labels (updates crowded [tick 1%Z; tick 2%Z])) = 25 /\
  length (dataset0 (updates crowded [tick 1%Z; tick 2%Z])) =
  length (labels (updates crowded [tick 1%Z; tick 2%Z])).
Proof.
  destruct (updateChart_never_trims [tick 1%Z; tick 2%Z] crowded) as (_ & Hkeep & Hdata).
  split; [apply Hkeep; simpl; lia|apply Hdata; reflexivity].
Defined.

Lemma updateChart_second_series_witness :
  datasets_tail (updates (createMqChart true) [rateSample 2 1; rateSample 3 2]) <> [] /\
  length (hd [] (datasets_tail (updates (createMqChart true) [rateSample 2 1; rateSample 3 2]))) =
  length (labels (updates (createMqChart true) [rateSample 2 1; rateSample 3 2])).
Proof.
  apply (updateChart_second_series [rateSample 2 1; rateSample 3 2] (createMqChart true));
    [discriminate|reflexivity|].
  repeat constructor; by eexists.
Defined.

Lemma timeLabel_width_witness : String.length (timeLabel noon) = 8.
Proof. apply timeLabel_width; simpl; lia. Defined.

Lemma loadHistory_aligns_witness :
  length (hd [] (data_tail (chartRate afterMorning))) = 2.
Proof.
  pose proof (loadHistory_aligns falsyZ (Some morning) freshBoard) as H.
  cbv zeta in H. destruct H as (_ & _ & H). apply H. discriminate.
Defined.

Lemma liveTick_three_labels_one_point_witness :
  length (arrays (liveTick beat afterMorning) !!! 6) = 5 /\
  length (arrays (liveTick beat afterWholeDay) !!! 6) = 24.
Proof.
  split.
  - pose proof (liveTick_three_labels_one_point beat afterMorning 6) as H.
    cbv zeta in H. destruct H as (_ & H & _); [by repeat constructor|].
    destruct H as [H _]; [vm_compute; lia|]. exact H.
  - pose proof (liveTick_three_labels_one_point beat afterWholeDay 6) as H.
    cbv zeta in H. destruct H as (_ & _ & H); [by repeat constructor|].
    destruct H as [H _]; [vm_compute; lia|by repeat constructor|]. exact H.
Defined.

Lemma liveTicks_after_empty_history_witness :
  let b' := liveTicks (replicate 9 beat) (loadHistory_settled falsyZ None freshBoard) in
  Forall (fun c => length (labelsOf b' c) = 21) (historyCharts b' ++ queueCharts b') /\
  Forall (fun c => length (data0 c) = 7) (queueCharts b').
Proof.
  apply (liveTicks_after_empty_history falsyZ (replicate 9 beat) None freshBoard).
  reflexivity.
Defined.

Lemma liveTick_independent_witness :
  view (arrays (liveTick beat freshBoard)) (chartQueued (liveTick beat freshBoard)) =
  updateChart noon (view (arrays freshBoard) (chartQueued freshBoard)) 5%Z None.
Proof.
  pose proof (liveTick_independent beat freshBoard) as H.
  cbv zeta in H. destruct H as (H & _); [discriminate..|]. exact H.
Defined.

Lemma status_update_frame_witness :
  on_status_update [("web", JStr "running")] twoBadges !! "status-db" =
  twoBadges !! "status-db".
Proof.
  destruct (status_update_frame [("web", JStr "running")] twoBadges) as [_ H].
  apply H. compute_done.
Defined.

Lemma terminal_transcript_witness :
  exists lines,
    Console.run (beforeClear ++ Cleared :: afterClear) [] = clearTerminal [] ++ lines /\
    length lines = 2.
Proof.
  destruct (terminal_transcript (beforeClear ++ Cleared :: afterClear) []) as [_ H].
  apply (H beforeClear afterClear); [reflexivity|compute_done].
Defined.

Lemma editor_buttons_coherent_witness :
  coherent (run editAndSave (editing "Stopped")).
Proof.
  apply (editor_buttons_coherent editAndSave (editing "Stopped")). by split.
Defined.

Lemma editor_stays_locked_witness :
  readOnly (editor (run wrongGuess (editing "Stopped"))) = true.
Proof.
  apply editor_stays_locked; [reflexivity|discriminate|].
  unfold wrongGuess. rewrite !not_elem_of_cons.
  repeat split; try discriminate. apply not_elem_of_nil.
Defined.


Lemma uid_is_safe_witness :
  replace_non_alnum "abc123" = "abc123".
Proof.
  pose proof (uid_is_safe "abc123") as H. cbv zeta in H.
  destruct H as (_ & _ & H & _). apply H. reflexivity.
Defined.

Lemma refresh_round_trip_witness :
  exists p1 b1,
    refreshConnectors idlePage = Some p1 /\ btn_refresh p1 = Some b1 /\
    disabled b1 = true /\ children p1 = children idlePage.
Proof.
  destruct (refresh_round_trip idlePage) as [_ H].
  destruct (H idleButton eq_refl) as (p1 & b1 & H1 & H2 & H3 & H4 & _).
  by exists p1, b1.
Defined.



Lemma known_connectors_empty_list_witness :
  exists p',
    on_known_connectors [] abCards = Some p' /\
    children p' = [{| nid := 2; node := emptyState |}].
Proof.
  destruct (known_connectors_empty_list abCards) as (p' & H1 & _ & _ & H2); [compute_done|].
  exists p'. split; [exact H1|]. apply H2. repeat constructor; by eexists.
Defined.



End Examples.
